(** * go-echoprint: fingerprint decoding and matching

    A shallow embedding of the package [echoprint] (files [fingerprint.go]
    and [match.go]) and the properties of its codec, window clamper, match
    scorer, match engine and batch orchestrator.

    Conventions of the embedding:
    - a [uint32] is a [Z] in [0, 2^32) and every arithmetic operation
      writes its wrap-around out ([uint32_add], [uint32_sub]); an [int] is
      a signed two's-complement [Z] of [intSize] bits;
    - a [float32] / [float64] is a [spec_float] with the IEEE-754 binary32 /
      binary64 parameters, so [NaN], rounding and comparison are the ones
      of the machine;
    - a Go slice is its visible elements together with the part of the
      backing array between [len] and [cap];
    - a Go call either returns normally, returns a non-nil [error], or
      panics with a run-time error: the type [outcome]. *)

From Stdlib Require Import ZArith String Ascii Lia Bool.
From Stdlib Require Import Floats.SpecFloat.
From stdpp Require Import gmap list sorting.

Local Open Scope Z_scope.

(** ** Run-time errors, errors and outcomes *)

(** The run-time panics the package can raise. *)
Inductive runtime_error : Type :=
| IndexOutOfRange (index len : nat)       (* index out of range [index] with length len *)
| SliceBoundsOutOfRange (bound cap : nat) (* slice bounds out of range [:bound] with capacity cap *)
| IntegerDivideByZero.

(** The cause inside a [*strconv.NumError]. *)
Inductive num_cause : Type := ErrSyntax | ErrRange.

(** Go [error] values: the ones [strconv] builds, and the ones handed over
    by the external collaborators (base64, zlib, the candidate store),
    which are opaque to this package and carried as their message. *)
Inductive error : Type :=
| NumError (Func Num : string) (Err : num_cause)
| ExternalError (msg : string).

Inductive outcome (A : Type) : Type :=
| Ok (a : A)
| Err (e : error)
| Panic (p : runtime_error).
Arguments Ok {A} a.
Arguments Err {A} e.
Arguments Panic {A} p.

#[export] Instance outcome_ret : MRet outcome := fun A a => Ok a.
#[export] Instance outcome_bind : MBind outcome := fun A B k m =>
  match m with
  | Ok a => k a
  | Err e => Err e
  | Panic p => Panic p
  end.

(** [for i := lo; i < lo+n; i++ { s = body i s }], leaving the loop at the
    first error or panic. *)
Fixpoint for_range {S : Type} (lo : nat) (n : nat)
    (body : nat -> S -> outcome S) (s : S) : outcome S :=
  match n with
  | O => Ok s
  | Datatypes.S n' => s' ← body lo s; for_range (Datatypes.S lo) n' body s'
  end.

(** [for _, x := range l { s = body x s }]. *)
Fixpoint for_each {A S : Type} (l : list A)
    (body : A -> S -> outcome S) (s : S) : outcome S :=
  match l with
  | [] => Ok s
  | x :: l' => s' ← body x s; for_each l' body s'
  end.

(** ** Machine integers *)

Definition uint32_mod : Z := 2 ^ 32.
Definition uint32 (z : Z) : Z := z mod uint32_mod.
Definition uint32_add (a b : Z) : Z := uint32 (a + b).
Definition uint32_sub (a b : Z) : Z := uint32 (a - b).
Definition uint16_incr (a : Z) : Z := (a + 1) mod 2 ^ 16.

(** A signed integer of [w] bits: the two's-complement reading of the low
    [w] bits. *)
Definition to_signed (w : Z) (z : Z) : Z :=
  (z + 2 ^ (w - 1)) mod 2 ^ w - 2 ^ (w - 1).

(** The width of [int]; 64 on the 64-bit targets (amd64, arm64). *)
Definition intSize : Z := 64.

(** [a / b] on [uint32]; the run-time panics on a zero divisor. *)
Definition uint32_div (a b : Z) : outcome Z :=
  if b =? 0 then Panic IntegerDivideByZero else Ok (a / b).

(** ** Slices of [uint32] *)

Record slice : Type := Slice {
  elems : list Z;   (* s[0], ..., s[len(s)-1] *)
  spare : list Z    (* the backing array from len(s) up to cap(s) *)
}.

Definition len (s : slice) : nat := length (elems s).
Definition cap (s : slice) : nat := length (elems s) + length (spare s).

(** The [nil] slice, and [make([]uint32, n)]. *)
Definition nil_slice : slice := Slice [] [].
Definition make (n : nat) : slice := Slice (replicate n 0) [].

(** [s[i]]. *)
Definition index (s : slice) (i : nat) : outcome Z :=
  match elems s !! i with
  | Some x => Ok x
  | None => Panic (IndexOutOfRange i (len s))
  end.

(** [s[i] = v]. *)
Definition store (s : slice) (i : nat) (v : Z) : outcome slice :=
  if decide (i < len s)%nat
  then Ok (Slice (<[i := v]> (elems s)) (spare s))
  else Panic (IndexOutOfRange i (len s)).

(** [s[:i]]: allowed up to the capacity, not only up to the length. *)
Definition slice_to (s : slice) (i : nat) : outcome slice :=
  if decide (i <= cap s)%nat
  then Ok (Slice (take i (elems s ++ spare s)) (drop i (elems s ++ spare s)))
  else Panic (SliceBoundsOutOfRange i (cap s)).

(** ** strconv.ParseUint(s, 16, 32) *)

(** The value of one byte as a digit, as [strconv] reads it: ['0'..'9'],
    then letters of either case from 10 on. *)
Definition digit_val (c : ascii) : option Z :=
  let n := Z.of_N (N_of_ascii c) in
  if (48 <=? n) && (n <=? 57) then Some (n - 48)
  else if (97 <=? n) && (n <=? 122) then Some (n - 97 + 10)
  else if (65 <=? n) && (n <=? 90) then Some (n - 65 + 10)
  else None.

Definition is_hex (c : ascii) : bool :=
  match digit_val c with
  | Some d => d <? 16
  | None => false
  end.

(** The digit loop: a byte that is no digit of base 16 is a syntax error,
    a value that leaves 32 bits a range error. *)
Fixpoint parse_digits (s : string) (n : Z) : num_cause + Z :=
  match s with
  | EmptyString => inr n
  | String c s' =>
    match digit_val c with
    | None => inl ErrSyntax
    | Some d =>
      if 16 <=? d then inl ErrSyntax
      else if uint32_mod <=? n * 16 + d then inl ErrRange
      else parse_digits s' (n * 16 + d)
    end
  end.

Definition ParseUint (s : string) : outcome Z :=
  match s with
  | EmptyString => Err (NumError "ParseUint" s ErrSyntax)
  | _ =>
    match parse_digits s 0 with
    | inr n => Ok n
    | inl c => Err (NumError "ParseUint" s c)
    end
  end.

(** ** fingerprint.go: decode *)

(** decode takes an uncompressed code string of fixed-width hex integers
    (time values followed by hash codes) and converts it to a pair of
    code/time arrays. *)
Definition decode (fp : string) : outcome (slice * slice) :=
  let tupleCount := (String.length fp / 5)%nat in
  let length := (tupleCount / 2)%nat in
  let codes := make length in
  let times := make length in
  (* first half of string (time values) *)
  times ← for_range 0 length (fun i times =>
    let offset := (i * 5)%nat in
    conv ← ParseUint (substring offset 5 fp);
    store times i (uint32 conv)) times;
  (* second half of string (code values) *)
  codes ← for_range length (tupleCount - length) (fun i codes =>
    let offset := (i * 5)%nat in
    conv ← ParseUint (substring offset 5 fp);
    store codes (i - length) (uint32 conv)) codes;
  Ok (codes, times).

(** ** Floating point: binary32 and binary64 *)

Module F32.
Definition prec : Z := 24.
Definition emax : Z := 128.
Definition of_Z (z : Z) : spec_float := binary_normalize prec emax z 0 false.
(** [m * 2^e], rounded; for constants such as [0.25]. *)
Definition of_scaled (m e : Z) : spec_float := binary_normalize prec emax m e false.
Definition sub : spec_float -> spec_float -> spec_float := SFsub prec emax.
Definition mul : spec_float -> spec_float -> spec_float := SFmul prec emax.
Definition div : spec_float -> spec_float -> spec_float := SFdiv prec emax.
(** [a >= b] and [a > b]; false as soon as one side is NaN. *)
Definition ge (a b : spec_float) : bool := SFleb b a.
Definition gt (a b : spec_float) : bool := SFltb b a.
End F32.

Module F64.
Definition prec : Z := 53.
Definition emax : Z := 1024.
Definition of_Z (z : Z) : spec_float := binary_normalize prec emax z 0 false.
Definition eqb (a b : spec_float) : bool := SFeqb a b.
Definition ge (a b : spec_float) : bool := SFleb b a.
Definition gt (a b : spec_float) : bool := SFltb b a.
End F64.

Definition float32 : Type := spec_float.
Definition float64 : Type := spec_float.

(** ** fingerprint.go: the data model *)

(** 60 seconds worth of time offsets (60*1000 / 23.2) *)
Definition fpSixtySecOffset : Z := 2586.

Definition mediumQualityThreshold : Z := 256.
Definition lowQualityThreshold : Z := 128.

Definition qualityHigh : string := "high".
Definition qualityMedium : string := "medium".
Definition qualityLow : string := "low".

Record metadata : Type := {
  TrackID : Z;
  UPC : string;
  ISRC : string;
  Version : float64;
  Filename : string;
  Bitrate : float64;
  Duration : float64
}.

(** CodegenFp represents a parsed json fingerprint generated by codegen.
    (Its field [Meta] is [codegen_Meta] here: [Meta] names the field of
    [Fingerprint].) *)
Record CodegenFp : Type := {
  codegen_Meta : metadata;
  Code : string
}.

(** Fingerprint contains the uncompressed and decoded codegen fingerprint
    string split into Codes and Times as integer arrays. *)
Record Fingerprint : Type := {
  Codes : slice;
  Times : slice;
  Meta : metadata;
  clamped : bool
}.

(** ** fingerprint.go: NewClamped *)

(** The body of [for i, time := range fp.Times], from index [i] on, with
    [times] the elements still to visit: the first time above
    [clampDuration] cuts both slices at its index and leaves the loop. *)
Fixpoint clamp_scan (fp : Fingerprint) (clampDuration : Z) (i : nat)
    (times : list Z) (clampedFp : Fingerprint) : outcome Fingerprint :=
  match times with
  | [] => Ok clampedFp
  | time :: rest =>
    if clampDuration <? time then
      codes' ← slice_to (Codes fp) i;
      times' ← slice_to (Times fp) i;
      Ok {| Codes := codes'; Times := times';
            Meta := Meta clampedFp; clamped := clamped clampedFp |}
    else clamp_scan fp clampDuration (S i) rest clampedFp
  end.

(** NewClamped returns a new Fingerprint limited to the window that starts
    at the first time offset. *)
Definition NewClamped (fp : Fingerprint) : outcome Fingerprint :=
  let clampedFp :=
    {| Codes := Codes fp; Times := Times fp; Meta := Meta fp; clamped := true |} in
  t0 ← index (Times fp) 0;
  let clampDuration := uint32_add (fpSixtySecOffset * 3) t0 in
  clamp_scan fp clampDuration 0 (elems (Times fp)) clampedFp.

(** Quality returns a string representation of the audio quality of the
    fingerprint based on the bitrate provided in the codegen metadata. *)
Definition Quality (fp : Fingerprint) : string :=
  if F64.eqb (Bitrate (Meta fp)) (F64.of_Z 0) then qualityHigh
  else if F64.ge (Bitrate (Meta fp)) (F64.of_Z mediumQualityThreshold) then qualityHigh
  else if F64.ge (Bitrate (Meta fp)) (F64.of_Z lowQualityThreshold) then qualityMedium
  else qualityLow.

Definition isMediumQuality (fp : Fingerprint) : bool :=
  F64.gt (Bitrate (Meta fp)) (F64.of_Z mediumQualityThreshold).

(** ** The external collaborators

    What the package calls and does not define: [encoding/base64],
    [compress/zlib], [sort] and the candidate store [db]. *)

(** A row of the candidate store: an ingested fingerprint and the time of
    its ingestion. *)
Record dbResult : Type := {
  result_fp : Fingerprint;
  ingestedAt : string
}.

Record Externals : Type := {
  (** [base64.StdEncoding.DecodeString] *)
  base64_DecodeString : string -> outcome string;
  (** [zlib.NewReader] over the decoded bytes: the header check and, when
      it passes, a reader *)
  zlib_Reader : Type;
  zlib_NewReader : string -> outcome zlib_Reader;
  (** the bytes [buf.ReadFrom(r)] has put into the buffer when it returns;
      [inflate] does not look at the error it returns *)
  buf_ReadFrom : zlib_Reader -> string;
  (** [db.query(fp, offset, rows, minScorePercent)] *)
  db_query : Fingerprint -> Z -> Z -> Z -> outcome (list dbResult);
  (** [sort.Sort] on a slice, given the [Less] of its [sort.Interface]:
      the slice as it is rearranged *)
  sort_Sort : forall A : Type, (A -> A -> bool) -> list A -> list A
}.

(** ** fingerprint.go: inflate and NewFingerprint *)

(** [strings.Replace(s, old, new, -1)] for one-byte [old] and [new]. *)
Fixpoint strings_Replace (s : string) (old new : ascii) : string :=
  match s with
  | EmptyString => EmptyString
  | String c s' =>
    String (if Ascii.eqb c old then new else c) (strings_Replace s' old new)
  end.

(** inflate decodes and decompresses the data generated by codegen *)
Definition inflate (E : Externals) (data : string) : outcome string :=
  (* fix some url-safeness that codegen does... *)
  let fixed := strings_Replace data "-" "+" in
  let fixed := strings_Replace fixed "_" "/" in
  decoded ← base64_DecodeString E fixed;
  r ← zlib_NewReader E decoded;
  let inflated := buf_ReadFrom E r in
  Ok inflated.

(** NewFingerprint decodes the codegen data and splits the audio
    fingerprint into a pair of Code/Time integer arrays of equal size *)
Definition NewFingerprint (E : Externals) (codegenFp : CodegenFp)
    : outcome Fingerprint :=
  inflated ← inflate E (Code codegenFp);
  '(codes, times) ← decode inflated;
  Ok {| Codes := codes; Times := times;
        Meta := codegen_Meta codegenFp; clamped := false |}.

(** ** match.go: constants and MatchResult *)

Definition maxIngestDuration : Z := 60 * 60 * 4.
Definition histogramMatchSlop : Z := 2.

(** The products below are constant expressions, exact in Go:
    [0.30 * 100] is 30, [0.70 * 100] is 70, and so on. *)
Definition minDBScorePercent : Z := 30.
Definition bestMatchDiff : float32 := F32.of_scaled 1 (-2).
Definition maxConfidence : float32 := F32.of_Z 100.

Definition minMatchConfidenceHighQuality : float32 := F32.of_Z 70.
Definition minMatchConfidenceMediumQuality : float32 := F32.of_Z 55.
Definition minMatchConfidenceLowQuality : float32 := F32.of_Z 35.

Definition searchDepthHighQuality : Z := 200.
Definition searchDepthMediumQuality : Z := 350.
Definition searchDepthLowQuality : Z := 500.

(** MatchResult represents a response from the fingerprint matching
    algorithm. The fields copied from the metadata carry the prefix
    [match_]; [Error] holds the error whose [Error()] text the Go field
    holds, [None] for [nil]. *)
Record MatchResult : Type := {
  match_fp : option Fingerprint;
  Best : bool;
  match_TrackID : Z;
  match_Filename : string;
  match_UPC : string;
  match_ISRC : string;
  Confidence : float32;
  IngestedAt : string;
  Error : option error
}.

(** byConfidence.Less: sort by confidence (descending) *)
Definition byConfidence_Less (a b : MatchResult) : bool :=
  F32.gt (Confidence a) (Confidence b).

Definition newMatchResult (r : dbResult) (confidence : float32) : MatchResult :=
  {| match_fp := Some (result_fp r);
     Best := false;
     match_TrackID := TrackID (Meta (result_fp r));
     match_Filename := Filename (Meta (result_fp r));
     match_UPC := UPC (Meta (result_fp r));
     match_ISRC := ISRC (Meta (result_fp r));
     Confidence := confidence;
     IngestedAt := ingestedAt r;
     Error := None |}.

Definition newMatchGroupError (err : error) : list MatchResult :=
  [ {| match_fp := None; Best := false; match_TrackID := 0;
       match_Filename := ""; match_UPC := ""; match_ISRC := "";
       Confidence := S754_zero false; IngestedAt := "";
       Error := Some err |} ].

Definition set_Best (m : MatchResult) : MatchResult :=
  {| match_fp := match_fp m; Best := true; match_TrackID := match_TrackID m;
     match_Filename := match_Filename m; match_UPC := match_UPC m;
     match_ISRC := match_ISRC m; Confidence := Confidence m;
     IngestedAt := IngestedAt m; Error := Error m |}.

Definition set_Confidence (c : float32) (m : MatchResult) : MatchResult :=
  {| match_fp := match_fp m; Best := Best m; match_TrackID := match_TrackID m;
     match_Filename := match_Filename m; match_UPC := match_UPC m;
     match_ISRC := match_ISRC m; Confidence := c;
     IngestedAt := IngestedAt m; Error := Error m |}.

(** ** match.go: the match scorer *)

(** [time / slop * slop] on [uint32]. *)
Definition discretize (time slop : Z) : outcome Z :=
  q ← uint32_div time slop;
  Ok (uint32 (q * slop)).

Definition getCodeTimeMap (fp : Fingerprint) (limit : nat) (slop : Z)
    : outcome (gmap Z (list Z)) :=
  let limit := if decide (len (Codes fp) < limit)%nat then len (Codes fp) else limit in
  for_range 0 limit (fun i (codeMap : gmap Z (list Z)) =>
    code ← index (Codes fp) i;
    t ← index (Times fp) i;
    time ← discretize t slop;
    Ok (<[code := default [] (codeMap !! code) ++ [time]]> codeMap)) ∅.

(** [dist := int(fpTime - matchTime); if dist < 0 { dist = -dist }] for an
    [int] of [w] bits: the subtraction is the one of [uint32]. *)
Definition distance (w : Z) (fpTime matchTime : Z) : Z :=
  let dist := to_signed w (uint32_sub fpTime matchTime) in
  if dist <? 0 then to_signed w (- dist) else dist.

(** [timeDiffs[dist]++] on a [map[int]uint16]. *)
Definition incr_bucket (dist : Z) (timeDiffs : gmap Z Z) : gmap Z Z :=
  <[dist := uint16_incr (default 0 (timeDiffs !! dist))]> timeDiffs.

(** The first part of calculateConfidence: the histogram [timeDiffs]. *)
Definition timeDiffs_of (fp matchFp : Fingerprint) (slop : Z)
    : outcome (gmap Z Z) :=
  (* limit the number of codes we map out to the length of the query FP *)
  matchCodeMap ← getCodeTimeMap matchFp (len (Codes fp)) slop;
  for_range 0 (len (Codes fp)) (fun i (timeDiffs : gmap Z Z) =>
    code ← index (Codes fp) i;
    t ← index (Times fp) i;
    fpTime ← discretize t slop;
    match matchCodeMap !! code with
    | Some matchTimes =>
      for_each matchTimes (fun matchTime timeDiffs =>
        Ok (incr_bucket (distance intSize fpTime matchTime) timeDiffs)) timeDiffs
    | None => Ok timeDiffs
    end) ∅.

(** The counts of the histogram, largest first, and the sum of the first
    two of them. *)
Definition timeDiffVals_of (timeDiffs : gmap Z Z) : list Z :=
  merge_sort Z.ge (snd <$> map_to_list timeDiffs).

Definition score_of (timeDiffVals : list Z) : Z :=
  match timeDiffVals with
  | [] => 0
  | [v0] => v0
  | v0 :: v1 :: _ => v0 + v1
  end.

Definition calculateConfidence (fp matchFp : Fingerprint) (slop : Z)
    : outcome float32 :=
  timeDiffs ← timeDiffs_of fp matchFp slop;
  let timeDiffVals := timeDiffVals_of timeDiffs in
  let score := score_of timeDiffVals in
  Ok (F32.mul (F32.div (F32.of_Z score) (F32.of_Z (Z.of_nat (len (Codes fp)))))
              (F32.of_Z 100)).

(** ** match.go: the match engine *)

(** determine if we have a "best" match; [matches[0]] panics on an empty
    slice. Every element is an object of its own (Match allocates one per
    row), so setting the flag through the first pointer changes the first
    element only. *)
Definition determineBestMatch (matches : list MatchResult)
    : outcome (list MatchResult) :=
  match matches with
  | [m0] => Ok [set_Best m0]
  | [] => Panic (IndexOutOfRange 0 0)
  | m0 :: m1 :: rest =>
    (* top match is different enough to call it best *)
    if F32.ge (F32.sub (Confidence m0) (Confidence m1))
              (F32.mul (Confidence m0) bestMatchDiff)
    then Ok (set_Best m0 :: m1 :: rest)
    else Ok (m0 :: m1 :: rest)
  end.

Definition clampMatchConfidence (matches : list MatchResult) : list MatchResult :=
  (fun m => if F32.gt (Confidence m) maxConfidence
            then set_Confidence maxConfidence m else m) <$> matches.

(** The search depth and the minimum confidence of a quality. *)
Definition match_policy (quality : string) : Z * float32 :=
  if String.eqb quality qualityHigh
  then (searchDepthHighQuality, minMatchConfidenceHighQuality)
  else if String.eqb quality qualityMedium
  then (searchDepthMediumQuality, minMatchConfidenceMediumQuality)
  else (searchDepthLowQuality, minMatchConfidenceLowQuality).

(** Match attempts to find the fingerprint provided in the database and
    returns an array of MatchResult *)
Definition Match (E : Externals) (fp : Fingerprint) : outcome (list MatchResult) :=
  fp ← (if clamped fp then Ok fp else NewClamped fp);
  let '(numRows, minMatchConfidence) := match_policy (Quality fp) in
  results ← db_query E fp 0 numRows minDBScorePercent;
  matches ← for_each results (fun r matches =>
    confidence ← calculateConfidence fp (result_fp r) (uint32 histogramMatchSlop);
    if F32.ge confidence minMatchConfidence
    then Ok (matches ++ [newMatchResult r confidence])
    else Ok matches) [];
  let numMatches := length matches in
  if decide (0 < numMatches)%nat then
    let matches := sort_Sort E MatchResult byConfidence_Less matches in
    matches ← determineBestMatch matches;
    Ok (clampMatchConfidence matches)
  else Ok matches.

(** ** match.go: the batch orchestrator *)

(** The body of the goroutine that MatchAll starts for one element: the
    value it writes to its slot, or the panic it dies of. *)
Definition matchGroup (E : Externals) (codegenFp : CodegenFp)
    : outcome (list MatchResult) :=
  match NewFingerprint E codegenFp with
  | Err err => Ok (newMatchGroupError err)
  | Panic p => Panic p
  | Ok fp =>
    match Match E fp with
    | Err err => Ok (newMatchGroupError err)
    | Panic p => Panic p
    | Ok matches => Ok matches
    end
  end.

(** One run of the goroutines, [order] being the order in which they
    reach the write to their slot. A goroutine shares nothing with the
    others but [allMatches], of which it writes the slot [group] only. A
    panic in a goroutine ends the program: the run is over. *)
Definition run_goroutines (E : Externals) (codegenList : list CodegenFp)
    (order : list nat) (allMatches : list (list MatchResult))
    : outcome (list (list MatchResult)) :=
  for_each order (fun group allMatches =>
    match codegenList !! group with
    | Some codegenFp =>
      matches ← matchGroup E codegenFp;
      Ok (<[group := matches]> allMatches)
    | None => Ok allMatches
    end) allMatches.

(** MatchAll performs mutiple matches in parallel, results are grouped by
    the index of the fingerprint list. Here under the schedule that runs
    the goroutines in the order of their start; [schedule_independent]
    shows that every other schedule returns the same. *)
Definition MatchAll (E : Externals) (codegenList : list CodegenFp)
    : outcome (list (list MatchResult)) :=
  let allMatches := replicate (length codegenList) [] in
  run_goroutines E codegenList (seq 0 (length codegenList)) allMatches.

(** ** echoprint/fingerprint.go: the earlier NewClamped

    The file of the earlier version of the package has the same [decode]
    and another NewClamped, which filters by a window of 60 seconds and
    builds its slices by [append]. The capacity [append] leaves is not
    looked at anywhere, so a slice is its elements here. *)
Module Legacy.

Record Fingerprint : Type := {
  Version : float64;
  Codes : list Z;
  Times : list Z;
  clamped : bool
}.

(** 60 seconds worth of time offsets (60*1000 / 23.2) *)
Definition fpSixtySecOffset : Z := 2586.

(** [l[i]]. *)
Definition at_index (l : list Z) (i : nat) : outcome Z :=
  match l !! i with
  | Some x => Ok x
  | None => Panic (IndexOutOfRange i (length l))
  end.

(** The body of [for i, time := range fp.Times], from index [i] on, with
    [times] the elements still to visit. *)
Fixpoint clamp_filter (fp : Fingerprint) (clampDuration : Z) (i : nat)
    (times : list Z) (clampedFp : Fingerprint) : outcome Fingerprint :=
  match times with
  | [] => Ok clampedFp
  | time :: rest =>
    if time <? clampDuration then
      code ← at_index (Codes fp) i;
      t ← at_index (Times fp) i;
      clamp_filter fp clampDuration (S i) rest
        {| Version := Version clampedFp;
           Codes := Codes clampedFp ++ [code];
           Times := Times clampedFp ++ [t];
           clamped := clamped clampedFp |}
    else clamp_filter fp clampDuration (S i) rest clampedFp
  end.

(** NewClamped returns a new Fingerprint limited to 60 seconds *)
Definition NewClamped (fp : Fingerprint) : outcome Fingerprint :=
  let clampedFp :=
    {| Version := Version fp; Codes := []; Times := []; clamped := true |} in
  t0 ← at_index (Times fp) 0;
  let clampDuration := uint32_add fpSixtySecOffset t0 in
  clamp_filter fp clampDuration 0 (Times fp) clampedFp.

End Legacy.

(** ** Vocabulary of the specification *)

(** The [i]-th group of five characters of the inflated string. *)
Definition group (fp : string) (i : nat) : string := substring (i * 5) 5 fp.

(** A string of hexadecimal digits only. *)
Fixpoint hex_string (s : string) : bool :=
  match s with
  | EmptyString => true
  | String c s' => is_hex c && hex_string s'
  end.

(** The body of the two loops of [decode], [off] being the index the
    target array starts at. *)
Definition decode_body (fp : string) (off : nat) (i : nat) (s : slice)
    : outcome slice :=
  conv ← ParseUint (group fp i);
  store s (i - off) (uint32 conv).

(** The fingerprints the core produces: the ones a successful [decode] of
    an inflated payload gives (as NewFingerprint builds them), and the ones
    NewClamped returns on a produced fingerprint. *)
Inductive produced : Fingerprint -> Prop :=
| produced_by_decode (inflated : string) (codes times : slice) (meta : metadata) :
    decode inflated = Ok (codes, times) ->
    produced {| Codes := codes; Times := times; Meta := meta; clamped := false |}
| produced_by_clamp (fp clampedFp : Fingerprint) :
    produced fp -> NewClamped fp = Ok clampedFp -> produced clampedFp.

(** Data of the examples. *)
Definition no_metadata : metadata :=
  {| TrackID := 0; UPC := ""; ISRC := ""; Version := S754_zero false;
     Filename := ""; Bitrate := S754_zero false; Duration := S754_zero false |}.

Definition fingerprint_of (codes times : list Z) : Fingerprint :=
  {| Codes := Slice codes []; Times := Slice times [];
     Meta := no_metadata; clamped := false |}.

(** A result carrying the confidence [c], unflagged. *)
Definition result_with (c : Z) : MatchResult :=
  newMatchResult {| result_fp := fingerprint_of [] []; ingestedAt := "" |} (F32.of_Z c).

Definition codegen_of (code : string) : CodegenFp :=
  {| codegen_Meta := no_metadata; Code := code |}.

(** Collaborators for the examples: a codec that hands the text over as it
    is, a store whose only row is the query itself, and merge sort. *)
Definition example_externals : Externals :=
  {| base64_DecodeString := fun s => Ok s;
     zlib_Reader := string;
     zlib_NewReader := fun s => Ok s;
     buf_ReadFrom := fun r => r;
     db_query := fun fp _ _ _ => Ok [ {| result_fp := fp; ingestedAt := "" |} ];
     sort_Sort := fun A Less l =>
       @merge_sort A (fun a b => Is_true (negb (Less b a)))
                   (fun a b => Is_true_dec (negb (Less b a))) l |}.

(** The encoding [decode] reads, for the round trip: a number of twenty
    bits as five hexadecimal digits, zero-padded, and a fingerprint as the
    digits of all its times followed by the digits of all its codes. *)
Definition hex_digit (d : Z) : ascii :=
  ascii_of_N (Z.to_N (if d <? 10 then 48 + d else 87 + d)).

Definition hex5 (v : Z) : string :=
  String (hex_digit (v / 65536 mod 16))
    (String (hex_digit (v / 4096 mod 16))
      (String (hex_digit (v / 256 mod 16))
        (String (hex_digit (v / 16 mod 16))
          (String (hex_digit (v mod 16)) EmptyString)))).

Fixpoint hex5_all (l : list Z) : string :=
  match l with
  | [] => EmptyString
  | v :: l' => (hex5 v ++ hex5_all l')%string
  end.

Definition encode (codes times : list Z) : string :=
  (hex5_all times ++ hex5_all codes)%string.

(** A fingerprint of the bitrate [b], an integer, and nothing else. *)
Definition fingerprint_at_bitrate (b : Z) : Fingerprint :=
  {| Codes := nil_slice; Times := nil_slice; clamped := false;
     Meta := {| TrackID := 0; UPC := ""; ISRC := ""; Version := S754_zero false;
                Filename := ""; Bitrate := F64.of_Z b;
                Duration := S754_zero false |} |}.

(** [test] on the [n] integers from [b] on. *)
Fixpoint holds_from (test : Z -> bool) (n : nat) (b : Z) : bool :=
  match n with
  | O => true
  | S n' => test b && holds_from test n' (b + 1)
  end.

(** The quality the thresholds give to an integer bitrate. *)
Definition quality_of_bitrate (b : Z) : string :=
  if b =? 0 then qualityHigh
  else if mediumQualityThreshold <=? b then qualityHigh
  else if lowQualityThreshold <=? b then qualityMedium
  else qualityLow.

(** Equality of two floating-point numbers as data. *)
Definition float_beq (x y : spec_float) : bool :=
  match x, y with
  | S754_zero s, S754_zero s' => Bool.eqb s s'
  | S754_infinity s, S754_infinity s' => Bool.eqb s s'
  | S754_nan, S754_nan => true
  | S754_finite s m e, S754_finite s' m' e' =>
    Bool.eqb s s' && Pos.eqb m m' && Z.eqb e e'
  | _, _ => false
  end.

(** The fingerprint Match works on: the one it was given when that is
    marked clamped, its clamped copy otherwise. *)
Definition clamped_for_match (fp c : Fingerprint) : Prop :=
  (clamped fp = true /\ c = fp) \/ (clamped fp = false /\ NewClamped fp = Ok c).

(** A fingerprint of the current version as one of the earlier version. *)
Definition legacy_of (fp : Fingerprint) : Legacy.Fingerprint :=
  {| Legacy.Version := Version (Meta fp);
     Legacy.Codes := elems (Codes fp);
     Legacy.Times := elems (Times fp);
     Legacy.clamped := clamped fp |}.

(** * Properties *)

(** ** Loops and slices *)

Lemma bind_Ok {A B : Type} (a : A) (k : A -> outcome B) : (Ok a ≫= k) = k a.
Proof. reflexivity. Qed.

Lemma for_range_S {S : Type} (f : nat -> S -> outcome S) (lo n : nat) (s : S) :
  for_range lo (Datatypes.S n) f s = (f lo s ≫= for_range (Datatypes.S lo) n f).
Proof. reflexivity. Qed.

Lemma for_range_ext {S : Type} (f g : nat -> S -> outcome S) :
  forall n lo s,
    (forall i s', (lo <= i < lo + n)%nat -> f i s' = g i s') ->
    for_range lo n f s = for_range lo n g s.
Proof.
  induction n as [|n IH]; intros lo s Hfg; simpl; [reflexivity|].
  rewrite (Hfg lo s) by lia.
  destruct (g lo s) as [s'| |]; simpl; try reflexivity.
  apply IH. intros i s'' Hi. apply Hfg. lia.
Qed.

Lemma for_range_invariant {S : Type} (P : S -> Prop) (f : nat -> S -> outcome S) :
  (forall i s s', P s -> f i s = Ok s' -> P s') ->
  forall n lo s s', P s -> for_range lo n f s = Ok s' -> P s'.
Proof.
  intros Hf. induction n as [|n IH]; intros lo s s' HP Hrun; simpl in Hrun.
  - congruence.
  - destruct (f lo s) as [s1| |] eqn:Hs1; simpl in Hrun; try discriminate.
    eapply IH; [|exact Hrun]. eapply Hf; eauto.
Qed.

Lemma store_ok (s : slice) (i : nat) (v : Z) :
  (i < len s)%nat ->
  store s i v = Ok (Slice (<[i := v]> (elems s)) (spare s)).
Proof. intros Hi. unfold store. destruct (decide (i < len s)%nat); [reflexivity|lia]. Qed.

Lemma store_panic (s : slice) (i : nat) (v : Z) :
  (len s <= i)%nat -> store s i v = Panic (IndexOutOfRange i (len s)).
Proof. intros Hi. unfold store. destruct (decide (i < len s)%nat); [lia|reflexivity]. Qed.

Lemma store_len (s s' : slice) (i : nat) (v : Z) :
  store s i v = Ok s' -> len s' = len s /\ spare s' = spare s.
Proof.
  unfold store. destruct (decide (i < len s)%nat); [|discriminate].
  intros [= <-]. unfold len. simpl. rewrite length_insert. auto.
Qed.

Lemma len_make (n : nat) : len (make n) = n.
Proof. unfold len, make. simpl. apply length_replicate. Qed.

(** ** strconv.ParseUint on groups of five characters *)

Lemma digit_val_hex (c : ascii) :
  is_hex c = true -> exists d, digit_val c = Some d /\ 0 <= d < 16.
Proof.
  unfold is_hex. destruct (digit_val c) as [d|] eqn:Hd; [|discriminate].
  intros Hlt. exists d. split; [reflexivity|].
  apply Z.ltb_lt in Hlt. split; [|exact Hlt].
  unfold digit_val in Hd.
  repeat match type of Hd with
  | (if ?b then _ else _) = _ => destruct b eqn:?
  end; inversion Hd; subst; lia.
Qed.

Lemma parse_digits_hex :
  forall s n, hex_string s = true -> 0 <= n ->
    (n + 1) * 16 ^ Z.of_nat (String.length s) <= uint32_mod ->
    exists v, parse_digits s n = inr v /\ 0 <= v < uint32_mod.
Proof.
  induction s as [|c s IH]; intros n Hhex Hn Hbound; simpl in *.
  - exists n. split; [reflexivity|]. lia.
  - apply andb_true_iff in Hhex as [Hc Hs].
    destruct (digit_val_hex c Hc) as (d & -> & Hd).
    rewrite Nat2Z.inj_succ, Z.pow_succ_r in Hbound by lia.
    assert (Hpos : 1 <= 16 ^ Z.of_nat (String.length s))
      by (pose proof (Z.pow_pos_nonneg 16 (Z.of_nat (String.length s))); lia).
    destruct (16 <=? d) eqn:H16; [apply Z.leb_le in H16; lia|].
    destruct (uint32_mod <=? n * 16 + d) eqn:Hr.
    + apply Z.leb_le in Hr. nia.
    + apply IH; [exact Hs|lia|nia].
Qed.

Lemma parse_digits_not_hex :
  forall s n, hex_string s = false -> exists c, parse_digits s n = inl c.
Proof.
  induction s as [|c s IH]; intros n Hhex; simpl in *; [discriminate|].
  unfold is_hex in Hhex.
  destruct (digit_val c) as [d|]; [|eauto].
  destruct (16 <=? d) eqn:H16; [eauto|].
  destruct (uint32_mod <=? n * 16 + d); [eauto|].
  apply IH. apply Z.leb_gt in H16. apply Z.ltb_lt in H16.
  rewrite H16 in Hhex. exact Hhex.
Qed.

Lemma ParseUint_hex (s : string) :
  String.length s = 5%nat -> hex_string s = true ->
  exists v, ParseUint s = Ok v /\ 0 <= v < uint32_mod.
Proof.
  intros Hlen Hhex.
  destruct (parse_digits_hex s 0 Hhex) as (v & Hv & Hrange); [lia| |].
  - rewrite Hlen. unfold uint32_mod. simpl. lia.
  - exists v. split; [|exact Hrange].
    unfold ParseUint. destruct s; [discriminate|]. rewrite Hv. reflexivity.
Qed.

Lemma ParseUint_not_hex (s : string) :
  hex_string s = false -> exists c, ParseUint s = Err (NumError "ParseUint" s c).
Proof.
  intros Hhex. destruct (parse_digits_not_hex s 0 Hhex) as (c & Hc).
  unfold ParseUint. destruct s; [discriminate|]. rewrite Hc. eauto.
Qed.

(** ** Substrings *)

Lemma substring_length :
  forall s a b, (a + b <= String.length s)%nat ->
    String.length (substring a b s) = b.
Proof.
  induction s as [|c s IH]; intros a b Hab; simpl in *.
  - destruct a; destruct b; simpl in *; try lia; reflexivity.
  - destruct a as [|a]; [destruct b as [|b]|]; simpl; [reflexivity| |].
    + f_equal. apply IH. lia.
    + apply IH. lia.
Qed.

Lemma substring_app_l :
  forall s t a b, (a + b <= String.length s)%nat ->
    substring a b (s ++ t) = substring a b s.
Proof.
  induction s as [|c s IH]; intros t a b Hab; simpl in *.
  - assert (a = 0 /\ b = 0)%nat as [-> ->] by lia. destruct t; reflexivity.
  - destruct a as [|a]; [destruct b as [|b]|]; simpl; [reflexivity| |].
    + f_equal. apply IH. lia.
    + apply IH. lia.
Qed.

Lemma hex_substring :
  forall s a b, hex_string s = true -> hex_string (substring a b s) = true.
Proof.
  induction s as [|c s IH]; intros a b Hhex; simpl in *.
  - destruct a; destruct b; reflexivity.
  - apply andb_true_iff in Hhex as [Hc Hs].
    destruct a as [|a]; [destruct b as [|b]|]; simpl; [reflexivity| |].
    + rewrite Hc. simpl. apply IH, Hs.
    + apply IH, Hs.
Qed.

Lemma group_length (fp : string) (i : nat) :
  (i < String.length fp / 5)%nat -> String.length (group fp i) = 5%nat.
Proof.
  intros Hi. apply substring_length.
  pose proof (Nat.div_mod_eq (String.length fp) 5). lia.
Qed.

(** ** The loops of decode *)

Section DecodeLoops.
Variable fp : string.
Variable off : nat.

Lemma decode_body_hex (i : nat) (s : slice) :
  String.length (group fp i) = 5%nat -> hex_string (group fp i) = true ->
  exists v, decode_body fp off i s = store s (i - off) (uint32 v).
Proof.
  intros H5 Hhex. unfold decode_body.
  destruct (ParseUint_hex _ H5 Hhex) as (v & -> & _). eauto.
Qed.

Lemma decode_body_not_hex (i : nat) (s : slice) :
  hex_string (group fp i) = false ->
  exists c, decode_body fp off i s = Err (NumError "ParseUint" (group fp i) c).
Proof.
  intros Hhex. unfold decode_body.
  destruct (ParseUint_not_hex _ Hhex) as (c & ->). eauto.
Qed.

(** Every group is hexadecimal and every write is in range: the loop ends
    and keeps the length of the array. *)
Lemma decode_loop_ok :
  forall n lo s,
    (forall i, (lo <= i < lo + n)%nat ->
       String.length (group fp i) = 5%nat /\ hex_string (group fp i) = true) ->
    (off <= lo)%nat -> (lo + n - off <= len s)%nat ->
    exists s', for_range lo n (decode_body fp off) s = Ok s' /\
               len s' = len s /\ spare s' = spare s.
Proof.
  induction n as [|n IH]; intros lo s Hgroups Hoff Hlen; cbn [for_range].
  - eauto.
  - destruct (Hgroups lo) as [H5 Hhex]; [lia|].
    destruct (decode_body_hex lo s H5 Hhex) as (v & ->).
    rewrite store_ok, bind_Ok by lia.
    destruct (IH (S lo) (Slice (<[(lo - off)%nat := uint32 v]> (elems s)) (spare s)))
      as (s' & Hrun & Hlen' & Hspare).
    + intros i Hi. apply Hgroups. lia.
    + lia.
    + unfold len in *. simpl. rewrite length_insert. lia.
    + exists s'. split; [exact Hrun|].
      unfold len in *. simpl in *. rewrite length_insert in Hlen'. auto.
Qed.

(** A group that is not hexadecimal ends the loop with the error of
    [ParseUint], also when the write of the last round would be out of
    range: the group is parsed before the write. *)
Lemma decode_loop_err :
  forall n lo s j,
    (lo <= j < lo + n)%nat -> hex_string (group fp j) = false ->
    (forall i, (lo <= i < lo + n)%nat -> String.length (group fp i) = 5%nat) ->
    (off <= lo)%nat -> (lo + n - 1 - off <= len s)%nat ->
    exists i c, (lo <= i <= j)%nat /\
      for_range lo n (decode_body fp off) s
        = Err (NumError "ParseUint" (group fp i) c).
Proof.
  induction n as [|n IH]; intros lo s j Hj Hbad H5 Hoff Hlen; [lia|].
  cbn [for_range].
  destruct (hex_string (group fp lo)) eqn:Hlo.
  - destruct (decode_body_hex lo s (H5 lo ltac:(lia)) Hlo) as (v & ->).
    assert (lo <> j) by congruence.
    rewrite store_ok, bind_Ok by lia.
    destruct (IH (S lo) (Slice (<[(lo - off)%nat := uint32 v]> (elems s)) (spare s)) j)
      as (i & c & Hi & Hrun); try lia; try assumption.
    + intros i Hi. apply H5. lia.
    + unfold len in *. simpl. rewrite length_insert. lia.
    + exists i, c. split; [lia|exact Hrun].
  - destruct (decode_body_not_hex lo s Hlo) as (c & ->).
    exists lo, c. split; [lia|reflexivity].
Qed.

(** Every group is hexadecimal and the write of the last round is one past
    the end of the array: the loop panics there. *)
Lemma decode_loop_panic :
  forall n lo s,
    (forall i, (lo <= i < lo + S n)%nat ->
       String.length (group fp i) = 5%nat /\ hex_string (group fp i) = true) ->
    (off <= lo)%nat -> (lo + n - off = len s)%nat ->
    for_range lo (S n) (decode_body fp off) s
      = Panic (IndexOutOfRange (len s) (len s)).
Proof.
  induction n as [|n IH]; intros lo s Hgroups Hoff Hlen;
    rewrite for_range_S;
    (destruct (Hgroups lo) as [H5 Hhex]; [lia|]);
    destruct (decode_body_hex lo s H5 Hhex) as (v & ->).
  - rewrite store_panic by lia. simpl. do 2 f_equal. lia.
  - rewrite store_ok, bind_Ok by lia.
    rewrite IH.
    + unfold len. simpl. rewrite length_insert. reflexivity.
    + intros i Hi. apply Hgroups. lia.
    + lia.
    + unfold len in *. simpl. rewrite length_insert. lia.
Qed.

End DecodeLoops.

(** [decode] in terms of the two loops over [decode_body]. *)
Lemma decode_unfold (fp : string) :
  decode fp =
    (times ← for_range 0 (String.length fp / 5 / 2) (decode_body fp 0)
               (make (String.length fp / 5 / 2));
     codes ← for_range (String.length fp / 5 / 2)
               (String.length fp / 5 - String.length fp / 5 / 2)
               (decode_body fp (String.length fp / 5 / 2))
               (make (String.length fp / 5 / 2));
     Ok (codes, times)).
Proof.
  assert (H1 : forall n s,
    for_range 0 n (fun i times =>
      conv ← ParseUint (substring (i * 5) 5 fp); store times i (uint32 conv)) s
    = for_range 0 n (decode_body fp 0) s).
  { intros n s. apply for_range_ext. intros i s' _.
    unfold decode_body, group. rewrite Nat.sub_0_r. reflexivity. }
  unfold decode. cbv zeta. rewrite H1. reflexivity.
Qed.

Lemma hex_groups_dec (fp : string) :
  forall n lo,
    (forall i, (lo <= i < lo + n)%nat -> hex_string (group fp i) = true) \/
    (exists j, (lo <= j < lo + n)%nat /\ hex_string (group fp j) = false).
Proof.
  induction n as [|n IH]; intros lo.
  - left. intros i Hi. lia.
  - destruct (hex_string (group fp lo)) eqn:Hlo.
    + destruct (IH (S lo)) as [Hall|(j & Hj & Hbad)].
      * left. intros i Hi. destruct (decide (i = lo)) as [->|]; [exact Hlo|].
        apply Hall. lia.
      * right. exists j. split; [lia|exact Hbad].
    + right. exists lo. split; [lia|exact Hlo].
Qed.

Lemma half_cases (n : nat) :
  (n = 2 * (n / 2) \/ n = 2 * (n / 2) + 1)%nat.
Proof.
  pose proof (Nat.div_mod_eq n 2). pose proof (Nat.mod_upper_bound n 2). lia.
Qed.

(** A group that is not hexadecimal makes [decode] return the error of
    [ParseUint] on the first such group. *)
Lemma decode_invalid_group (fp : string) (j : nat) :
  (j < String.length fp / 5)%nat -> hex_string (group fp j) = false ->
  exists i c, (i <= j)%nat /\
    decode fp = Err (NumError "ParseUint" (group fp i) c).
Proof.
  intros Hj Hbad. rewrite decode_unfold.
  set (n := (String.length fp / 5)%nat) in *. set (h := (n / 2)%nat).
  assert (Hn : (n = 2 * h \/ n = 2 * h + 1)%nat) by apply half_cases.
  assert (H5 : forall i, (i < n)%nat -> String.length (group fp i) = 5%nat)
    by (intros; apply group_length; assumption).
  destruct (decide (j < h)%nat) as [Hjh|Hjh].
  { destruct (decode_loop_err fp 0 h 0%nat (make h) j)
      as (i & c & Hi & ->); try assumption; try lia.
    - intros i Hi. apply H5. lia.
    - rewrite len_make. lia.
    - exists i, c. split; [lia|reflexivity]. }
  destruct (hex_groups_dec fp h 0%nat) as [Hall|(j' & Hj' & Hbad')].
  - destruct (decode_loop_ok fp 0 h 0%nat (make h)) as (times & -> & Hlen & _).
    + intros i Hi. split; [apply H5; lia|apply Hall; lia].
    + lia.
    + rewrite len_make. lia.
    + rewrite bind_Ok.
      destruct (decode_loop_err fp h (n - h) h (make h) j)
        as (i & c & Hi & ->); try assumption; try lia.
      * intros i Hi. apply H5. lia.
      * rewrite len_make. lia.
      * exists i, c. split; [lia|reflexivity].
  - destruct (decode_loop_err fp 0 h 0%nat (make h) j')
      as (i & c & Hi & ->); try assumption; try lia.
    + intros i Hi. apply H5. lia.
    + rewrite len_make. lia.
    + exists i, c. split; [lia|reflexivity].
Qed.

(** Hexadecimal groups throughout and an even number of them: [decode]
    returns two arrays of half that number of elements. *)
Lemma decode_even (fp : string) :
  (forall i, (i < String.length fp / 5)%nat -> hex_string (group fp i) = true) ->
  (String.length fp / 5 = 2 * (String.length fp / 5 / 2))%nat ->
  exists codes times, decode fp = Ok (codes, times) /\
    len codes = (String.length fp / 5 / 2)%nat /\
    len times = (String.length fp / 5 / 2)%nat /\
    spare codes = [] /\ spare times = [].
Proof.
  intros Hall Heven. rewrite decode_unfold.
  set (n := (String.length fp / 5)%nat) in *. set (h := (n / 2)%nat) in *.
  assert (H5 : forall i, (i < n)%nat -> String.length (group fp i) = 5%nat)
    by (intros; apply group_length; assumption).
  destruct (decode_loop_ok fp 0 h 0%nat (make h)) as (times & -> & Ht & Hts).
  { intros i Hi. split; [apply H5|apply Hall]; lia. }
  { lia. }
  { rewrite len_make. lia. }
  rewrite bind_Ok.
  destruct (decode_loop_ok fp h (n - h) h (make h)) as (codes & -> & Hc & Hcs).
  { intros i Hi. split; [apply H5|apply Hall]; lia. }
  { lia. }
  { rewrite len_make. lia. }
  rewrite bind_Ok. exists codes, times. rewrite len_make in *. auto.
Qed.

(** Hexadecimal groups throughout and an odd number of them: the second
    loop writes one past the end of [codes]. *)
Lemma decode_odd (fp : string) :
  (forall i, (i < String.length fp / 5)%nat -> hex_string (group fp i) = true) ->
  (String.length fp / 5 = 2 * (String.length fp / 5 / 2) + 1)%nat ->
  decode fp = Panic (IndexOutOfRange (String.length fp / 5 / 2)
                                     (String.length fp / 5 / 2)).
Proof.
  intros Hall Hodd. rewrite decode_unfold.
  set (n := (String.length fp / 5)%nat) in *. set (h := (n / 2)%nat) in *.
  assert (H5 : forall i, (i < n)%nat -> String.length (group fp i) = 5%nat)
    by (intros; apply group_length; assumption).
  destruct (decode_loop_ok fp 0 h 0%nat (make h)) as (times & -> & Ht & Hts).
  { intros i Hi. split; [apply H5|apply Hall]; lia. }
  { lia. }
  { rewrite len_make. lia. }
  rewrite bind_Ok.
  replace (n - h)%nat with (S h) by lia.
  rewrite decode_loop_panic.
  - rewrite len_make. reflexivity.
  - intros i Hi. split; [apply H5|apply Hall]; lia.
  - lia.
  - rewrite len_make. lia.
Qed.

Lemma string_length_app (s t : string) :
  String.length (s ++ t) = (String.length s + String.length t)%nat.
Proof. induction s as [|c s IH]; simpl; [reflexivity|]. rewrite IH. reflexivity. Qed.

(** [decode] does not look beyond the last complete group. *)
Lemma decode_trailing (fp t : string) :
  (String.length fp mod 5 = 0)%nat -> (String.length t < 5)%nat ->
  decode (fp ++ t) = decode fp.
Proof.
  intros Hmod Ht. rewrite !decode_unfold.
  assert (Hn : (String.length (fp ++ t) / 5 = String.length fp / 5)%nat).
  { rewrite string_length_app.
    pose proof (Nat.div_mod_eq (String.length fp) 5) as Hdm. rewrite Hmod in Hdm.
    symmetry. apply (Nat.div_unique _ 5 _ (String.length t)); lia. }
  rewrite Hn.
  set (n := (String.length fp / 5)%nat) in *. set (h := (n / 2)%nat).
  assert (Hbody : forall off i s, (i < n)%nat ->
            decode_body (fp ++ t) off i s = decode_body fp off i s).
  { intros off i s Hi. unfold decode_body, group.
    rewrite substring_app_l; [reflexivity|].
    pose proof (Nat.div_mod_eq (String.length fp) 5). fold n in H. lia. }
  pose proof (half_cases n) as Hh. fold h in Hh.
  rewrite (for_range_ext (decode_body (fp ++ t) 0) (decode_body fp 0))
    by (intros; apply Hbody; lia).
  destruct (for_range 0 h (decode_body fp 0) (make h)); try reflexivity.
  rewrite !bind_Ok.
  rewrite (for_range_ext (decode_body (fp ++ t) h) (decode_body fp h))
    by (intros; apply Hbody; lia).
  reflexivity.
Qed.

Lemma hex_string_groups (fp : string) :
  hex_string fp = true -> forall i, hex_string (group fp i) = true.
Proof. intros Hhex i. apply hex_substring, Hhex. Qed.

(** ** The codec: what decode accepts, rejects and dies of *)

(** C3, counterexample. An inflated string of eleven characters, which is
    not a multiple of five, is decoded without an error: the last
    character is dropped. *)
Lemma decode_trailing_digit_accepted :
  (String.length "00001000021" mod 5 <> 0)%nat /\
  decode "00001000021" = Ok (Slice [2] [], Slice [1] []).
Proof. split; [vm_compute; lia|reflexivity]. Qed.

(** C3, as amended. [decode] fails with the error of [ParseUint] (and
    returns no Codes/Times) whenever one of the [len/5] complete groups of
    five characters is not valid hexadecimal; the error names a group at or
    before that one. The length itself is not checked: up to four
    characters after the last complete group are not looked at. *)
Theorem decode_fails_on_invalid_group (fp : string) :
  (forall j, (j < String.length fp / 5)%nat -> hex_string (group fp j) = false ->
     exists i c, (i <= j)%nat /\
       decode fp = Err (NumError "ParseUint" (group fp i) c)) /\
  (forall t, (String.length fp mod 5 = 0)%nat -> (String.length t < 5)%nat ->
     decode (fp ++ t) = decode fp).
Proof.
  split.
  - intros j Hj Hbad. apply decode_invalid_group; assumption.
  - intros t Hmod Ht. apply decode_trailing; assumption.
Qed.

Lemma decode_fails_on_invalid_group_witness :
  (exists i c, (i <= 1)%nat /\
     decode "000010000g" = Err (NumError "ParseUint" (group "000010000g" i) c)) /\
  decode ("0000100002" ++ "1")%string = decode "0000100002".
Proof.
  split.
  - apply (proj1 (decode_fails_on_invalid_group "000010000g") 1%nat).
    + vm_compute. lia.
    + reflexivity.
  - apply (proj2 (decode_fails_on_invalid_group "0000100002") "1"%string).
    + reflexivity.
    + vm_compute. lia.
Defined.

(** C9. On a string of hexadecimal digits [decode] returns a result
    exactly when the number of groups of five digits is even; on a string
    of [5 * (2k + 1)] digits the second loop writes [codes[k]] into an array
    of [k] elements and the call panics instead of returning an error. *)
Theorem decode_total_only_on_even_groups (fp : string) :
  hex_string fp = true ->
  ((exists codes times, decode fp = Ok (codes, times))
     <-> Nat.Even (String.length fp / 5)) /\
  (forall k, String.length fp = (5 * (2 * k + 1))%nat ->
     decode fp = Panic (IndexOutOfRange k k)).
Proof.
  intros Hhex.
  pose proof (hex_string_groups fp Hhex) as Hall.
  split.
  - split.
    + intros (codes & times & Hdec).
      destruct (half_cases (String.length fp / 5)) as [Heven|Hodd].
      * exists (String.length fp / 5 / 2)%nat. exact Heven.
      * rewrite decode_odd in Hdec by auto. discriminate.
    + intros [m Hm].
      destruct (half_cases (String.length fp / 5)) as [Heven|Hodd]; [|lia].
      destruct (decode_even fp) as (codes & times & Hdec & _); eauto.
  - intros k Hlen.
    assert (Hn : (String.length fp / 5 = 2 * k + 1)%nat).
    { rewrite Hlen. rewrite Nat.mul_comm. apply Nat.div_mul. lia. }
    assert (Hh : (String.length fp / 5 / 2 = k)%nat).
    { rewrite Hn. symmetry. apply (Nat.div_unique _ 2 _ 1); lia. }
    rewrite decode_odd by (auto; lia). rewrite Hh. reflexivity.
Qed.

Lemma decode_total_only_on_even_groups_witness :
  ((exists codes times, decode "000010000200003" = Ok (codes, times))
     <-> Nat.Even (String.length "000010000200003" / 5)) /\
  decode "000010000200003" = Panic (IndexOutOfRange 1 1).
Proof.
  destruct (decode_total_only_on_even_groups "000010000200003" eq_refl) as [H1 H2].
  split; [exact H1|]. apply (H2 1%nat). reflexivity.
Defined.

(** ** The window clamper *)

(** A list of times either stays within the boundary or splits at the
    first time above it. *)
Lemma first_exceeding_split (B : Z) (l : list Z) :
  Forall (fun t => t <= B) l \/
  exists pre t rest, l = pre ++ t :: rest /\ Forall (fun t => t <= B) pre /\ B < t.
Proof.
  induction l as [|x l IH].
  - left. constructor.
  - destruct (Z_lt_le_dec B x) as [Hx|Hx].
    + right. exists [], x, l. split; [reflexivity|]. split; [constructor|exact Hx].
    + destruct IH as [Hall|(pre & t & rest & -> & Hpre & Ht)].
      * left. constructor; assumption.
      * right. exists (x :: pre), t, rest.
        split; [reflexivity|]. split; [constructor; assumption|exact Ht].
Qed.

Section ClampScan.
Variable fp : Fingerprint.
Variable B : Z.

Lemma clamp_scan_within (clampedFp : Fingerprint) :
  forall times i, Forall (fun t => t <= B) times ->
    clamp_scan fp B i times clampedFp = Ok clampedFp.
Proof.
  induction times as [|t times IH]; intros i Hall; simpl; [reflexivity|].
  inversion Hall as [|? ? Ht Hrest]; subst.
  destruct (B <? t) eqn:Hlt; [apply Z.ltb_lt in Hlt; lia|].
  apply IH, Hrest.
Qed.

Lemma clamp_scan_cut (clampedFp : Fingerprint) :
  forall pre i t rest, Forall (fun t => t <= B) pre -> B < t ->
    clamp_scan fp B i (pre ++ t :: rest) clampedFp =
      (codes' ← slice_to (Codes fp) (i + length pre);
       times' ← slice_to (Times fp) (i + length pre);
       Ok {| Codes := codes'; Times := times';
             Meta := Meta clampedFp; clamped := clamped clampedFp |}).
Proof.
  induction pre as [|x pre IH]; intros i t rest Hpre Ht; simpl.
  - apply Z.ltb_lt in Ht. rewrite Ht. rewrite Nat.add_0_r. reflexivity.
  - inversion Hpre as [|? ? Hx Hrest]; subst.
    destruct (B <? x) eqn:Hlt; [apply Z.ltb_lt in Hlt; lia|].
    rewrite IH by assumption.
    replace (S i + length pre)%nat with (i + S (length pre))%nat by lia.
    reflexivity.
Qed.

End ClampScan.

Lemma slice_to_within (s : slice) (i : nat) :
  (i <= len s)%nat ->
  slice_to s i = Ok (Slice (take i (elems s)) (drop i (elems s) ++ spare s)).
Proof.
  intros Hi. unfold slice_to, cap, len in *.
  destruct (decide (i <= length (elems s) + length (spare s))%nat); [|lia].
  rewrite take_app_le, drop_app_le by lia. reflexivity.
Qed.

Lemma slice_to_len (s s' : slice) (i : nat) :
  slice_to s i = Ok s' -> len s' = i.
Proof.
  unfold slice_to, cap, len.
  destruct (decide _) as [Hi|]; [|discriminate].
  intros [= <-]. simpl. rewrite length_take, length_app. lia.
Qed.

Lemma index_0 (s : slice) (t0 : Z) :
  elems s !! 0%nat = Some t0 -> index s 0 = Ok t0.
Proof. intros H. unfold index. rewrite H. reflexivity. Qed.

(** What [NewClamped] returns, by the two ways out of its loop. *)
Lemma NewClamped_cases (fp : Fingerprint) (t0 : Z) :
  elems (Times fp) !! 0%nat = Some t0 ->
  let B := uint32_add (fpSixtySecOffset * 3) t0 in
  (Forall (fun t => t <= B) (elems (Times fp)) /\
   NewClamped fp = Ok {| Codes := Codes fp; Times := Times fp;
                         Meta := Meta fp; clamped := true |}) \/
  (exists pre t rest,
     elems (Times fp) = pre ++ t :: rest /\ Forall (fun t => t <= B) pre /\ B < t /\
     NewClamped fp =
       (codes' ← slice_to (Codes fp) (length pre);
        Ok {| Codes := codes';
              Times := Slice pre (t :: rest ++ spare (Times fp));
              Meta := Meta fp; clamped := true |})).
Proof.
  intros H0 B. unfold NewClamped. rewrite (index_0 _ _ H0), bind_Ok. fold B.
  destruct (first_exceeding_split B (elems (Times fp)))
    as [Hall|(pre & t & rest & Hsplit & Hpre & Ht)].
  - left. split; [exact Hall|]. apply clamp_scan_within, Hall.
  - right. exists pre, t, rest. repeat split; try assumption.
    rewrite Hsplit, clamp_scan_cut by assumption. simpl.
    destruct (slice_to (Codes fp) (length pre)) as [codes'| |]; try reflexivity.
    rewrite bind_Ok, slice_to_within.
    + rewrite Hsplit, take_app_length, drop_app_length, bind_Ok. reflexivity.
    + unfold len. rewrite Hsplit, length_app. simpl. lia.
Qed.





(** A clamped fingerprint whose times stay within its boundary is what
    NewClamped returns on it. *)
Lemma NewClamped_within (c : Fingerprint) (t0 : Z) :
  clamped c = true -> elems (Times c) !! 0%nat = Some t0 ->
  Forall (fun t => t <= uint32_add (fpSixtySecOffset * 3) t0) (elems (Times c)) ->
  NewClamped c = Ok c.
Proof.
  intros Hc H0 Hall. unfold NewClamped.
  rewrite (index_0 _ _ H0), bind_Ok, clamp_scan_within by exact Hall.
  destruct c; simpl in *; subst; reflexivity.
Qed.

(** On a fingerprint that NewClamped has returned and that still has
    times, NewClamped returns that very fingerprint, codes, times, metadata
    and flag. *)
Lemma NewClamped_on_clamped (fp c : Fingerprint) :
  NewClamped fp = Ok c -> elems (Times c) <> [] ->
  NewClamped c = Ok c /\ (NewClamped fp ≫= NewClamped) = NewClamped fp.
Proof.
  intros Hrun Hne.
  enough (Hc : NewClamped c = Ok c).
  { split; [exact Hc|]. rewrite Hrun, bind_Ok. exact Hc. }
  destruct (elems (Times fp)) as [|t0 tl] eqn:Htimes.
  { unfold NewClamped, index in Hrun. rewrite Htimes in Hrun. discriminate. }
  assert (H0 : elems (Times fp) !! 0%nat = Some t0) by (rewrite Htimes; reflexivity).
  pose proof (NewClamped_cases fp t0 H0) as Hcases. cbv zeta in Hcases.
  destruct Hcases as [[Hall Hrun']|(pre & t & rest & Hsplit & Hpre & Ht & Hrun')];
    rewrite Hrun' in Hrun.
  - injection Hrun as <-.
    apply (NewClamped_within _ t0); [reflexivity|exact H0|exact Hall].
  - destruct (slice_to (Codes fp) (length pre)) as [codes'| |]; try discriminate.
    rewrite bind_Ok in Hrun. injection Hrun as <-. simpl in *.
    destruct pre as [|p0 pre']; [congruence|].
    rewrite Htimes in Hsplit. injection Hsplit as -> Htl.
    apply (NewClamped_within _ p0); [reflexivity|reflexivity|exact Hpre].
Qed.

(** Unless the boundary leaves 32 bits, the first time stays within it:
    the clamped fingerprint has times whenever the fingerprint has. *)
Lemma NewClamped_keeps_first (fp : Fingerprint) (t0 : Z) :
  elems (Times fp) !! 0%nat = Some t0 ->
  len (Codes fp) = len (Times fp) ->
  0 <= t0 -> t0 + 3 * 2586 < uint32_mod ->
  exists c, NewClamped fp = Ok c /\ elems (Times c) !! 0%nat = Some t0.
Proof.
  intros H0 Hlen Hge Hlt.
  pose proof (NewClamped_cases fp t0 H0) as Hcases. cbv zeta in Hcases.
  assert (Hsum : uint32_add (fpSixtySecOffset * 3) t0 = t0 + 7758).
  { unfold uint32_add, uint32, fpSixtySecOffset. rewrite Z.mod_small; lia. }
  rewrite Hsum in Hcases.
  destruct Hcases as [[Hall Hrun]|(pre & t & rest & Hsplit & Hpre & Ht & Hrun)].
  - eexists. split; [exact Hrun|exact H0].
  - rewrite slice_to_within, bind_Ok in Hrun.
    2:{ rewrite Hlen. unfold len. rewrite Hsplit, length_app. lia. }
    eexists. split; [exact Hrun|]. simpl.
    rewrite Hsplit in H0. destruct pre as [|p0 pre']; [|exact H0].
    simpl in H0. injection H0 as ->. lia.
Qed.

(** NewClamped returns only on a fingerprint that has a first time, and
    what it returns is marked clamped. *)
Lemma NewClamped_ok_first (fp c : Fingerprint) :
  NewClamped fp = Ok c -> exists t0, elems (Times fp) !! 0%nat = Some t0.
Proof.
  intros Hrun. destruct (elems (Times fp)) as [|t0 tl] eqn:Htimes.
  - unfold NewClamped, index in Hrun. rewrite Htimes in Hrun. discriminate.
  - exists t0. reflexivity.
Qed.

Lemma NewClamped_flag (fp c : Fingerprint) :
  NewClamped fp = Ok c -> clamped c = true /\ Meta c = Meta fp.
Proof.
  intros Hrun. destruct (NewClamped_ok_first _ _ Hrun) as [t0 H0].
  pose proof (NewClamped_cases fp t0 H0) as Hcases. cbv zeta in Hcases.
  destruct Hcases as [[_ Hrun']|(pre & t & rest & _ & _ & _ & Hrun')];
    rewrite Hrun' in Hrun.
  - injection Hrun as <-. split; reflexivity.
  - destruct (slice_to (Codes fp) (length pre)); try discriminate.
    rewrite bind_Ok in Hrun. injection Hrun as <-. split; reflexivity.
Qed.

(** Clamping twice, for a fingerprint with as many codes as times whose
    boundary stays within 32 bits. *)
Lemma NewClamped_twice (fp : Fingerprint) (t0 : Z) :
  elems (Times fp) !! 0%nat = Some t0 ->
  len (Codes fp) = len (Times fp) ->
  0 <= t0 -> t0 + 3 * 2586 < uint32_mod ->
  exists c, NewClamped fp = Ok c /\ NewClamped c = Ok c.
Proof.
  intros H0 Hlen Hge Hlt.
  destruct (NewClamped_keeps_first fp t0 H0 Hlen Hge Hlt) as (c & Hrun & Hc0).
  exists c. split; [exact Hrun|].
  destruct (NewClamped_flag _ _ Hrun) as [Hflag _].
  destruct (NewClamped_ok_first _ _ Hrun) as [t0' H0'].
  pose proof (NewClamped_cases fp t0' H0') as Hcases. cbv zeta in Hcases.
  assert (t0' = t0) as -> by congruence.
  destruct Hcases as [[Hall Hrun']|(pre & t & rest & Hsplit & Hpre & Ht & Hrun')];
    rewrite Hrun' in Hrun.
  - injection Hrun as <-. apply (NewClamped_within _ t0); [reflexivity|exact H0|exact Hall].
  - destruct (slice_to (Codes fp) (length pre)); try discriminate.
    rewrite bind_Ok in Hrun. injection Hrun as <-.
    apply (NewClamped_within _ t0); [reflexivity|exact Hc0|exact Hpre].
Qed.

(** C7, as amended. Clamping is idempotent when the boundary of the
    window stays within 32 bits: for a fingerprint with a first time [t0]
    such that [t0 + 3 * fpSixtySecOffset < 2^32], clamping the clamped
    fingerprint is clamping once; what NewClamped returns still starts at
    [t0], and NewClamped on it returns that very fingerprint, codes, times,
    metadata and flag; and with as many codes as times NewClamped does
    return. *)
Theorem NewClamped_idempotent (fp : Fingerprint) (t0 : Z) :
  elems (Times fp) !! 0%nat = Some t0 ->
  0 <= t0 -> t0 + 3 * fpSixtySecOffset < uint32_mod ->
  (NewClamped fp ≫= NewClamped) = NewClamped fp /\
  (forall c, NewClamped fp = Ok c ->
     elems (Times c) !! 0%nat = Some t0 /\ NewClamped c = Ok c) /\
  (len (Codes fp) = len (Times fp) -> exists c, NewClamped fp = Ok c).
Proof.
  intros H0 Hge Hlt.
  assert (Hfirst : forall c, NewClamped fp = Ok c ->
            elems (Times c) !! 0%nat = Some t0).
  { intros c Hrun.
    pose proof (NewClamped_cases fp t0 H0) as Hcases. cbv zeta in Hcases.
    assert (Hsum : uint32_add (fpSixtySecOffset * 3) t0 = t0 + 7758).
    { unfold uint32_add, uint32, fpSixtySecOffset in *. rewrite Z.mod_small; lia. }
    rewrite Hsum in Hcases.
    destruct Hcases as [[Hall Hrun']|(pre & t & rest & Hsplit & Hpre & Ht & Hrun')];
      rewrite Hrun' in Hrun.
    - injection Hrun as <-. exact H0.
    - destruct (slice_to (Codes fp) (length pre)) as [codes'| |]; try discriminate.
      rewrite bind_Ok in Hrun. injection Hrun as <-. simpl.
      rewrite Hsplit in H0. destruct pre as [|p0 pre']; [|exact H0].
      simpl in H0. injection H0 as ->. lia. }
  assert (Hagain : forall c, NewClamped fp = Ok c -> NewClamped c = Ok c).
  { intros c Hrun. apply (NewClamped_on_clamped fp c Hrun).
    intros Hnil. specialize (Hfirst c Hrun). rewrite Hnil in Hfirst. discriminate. }
  split; [|split].
  - destruct (NewClamped fp) as [c| |] eqn:Hrun; [|reflexivity|reflexivity].
    rewrite bind_Ok. apply Hagain. reflexivity.
  - intros c Hrun. split; [apply Hfirst|apply Hagain]; exact Hrun.
  - intros Hlen.
    destruct (NewClamped_keeps_first fp t0 H0 Hlen Hge) as (c & Hrun & _).
    + unfold fpSixtySecOffset in Hlt. exact Hlt.
    + exists c. exact Hrun.
Qed.

Lemma NewClamped_idempotent_witness :
  let fp := fingerprint_of [10; 20; 30] [5; 7763; 7764] in
  let c := {| Codes := Slice [10; 20] [30]; Times := Slice [5; 7763] [7764];
              Meta := no_metadata; clamped := true |} in
  NewClamped fp = Ok c /\ NewClamped c = Ok c /\
  (NewClamped fp ≫= NewClamped) = NewClamped fp.
Proof.
  assert (Hwin : 5 + 3 * fpSixtySecOffset < uint32_mod) by reflexivity.
  assert (Hpos : 0 <= 5) by discriminate.
  pose proof (NewClamped_idempotent (fingerprint_of [10; 20; 30] [5; 7763; 7764]) 5
                eq_refl Hpos Hwin) as (Htwice & Hc & _).
  split; [reflexivity|]. split; [|exact Htwice].
  exact (proj2 (Hc _ eq_refl)).
Defined.

(** C7, counterexample. Where the boundary wraps, clamping twice is not
    clamping once: the fingerprint has two times, the first [2^32 - 1]; the
    boundary [2^32 - 1 + 7758] wraps to 7757, the first time is beyond it,
    NewClamped returns a fingerprint with no codes and no times, and on
    that fingerprint NewClamped panics at [Times[0]]. *)
Lemma NewClamped_wrap_not_idempotent :
  let fp := fingerprint_of [1; 2] [4294967295; 5] in
  let c := {| Codes := Slice [] [1; 2]; Times := Slice [] [4294967295; 5];
              Meta := no_metadata; clamped := true |} in
  elems (Times fp) <> [] /\ len (Codes fp) = len (Times fp) /\
  uint32_add (fpSixtySecOffset * 3) 4294967295 = 7757 /\
  NewClamped fp = Ok c /\
  NewClamped c = Panic (IndexOutOfRange 0 0) /\
  (NewClamped fp ≫= NewClamped) = Panic (IndexOutOfRange 0 0) /\
  (NewClamped fp ≫= NewClamped) <> NewClamped fp.
Proof.
  split; [discriminate|]. split; [reflexivity|]. split; [reflexivity|].
  split; [reflexivity|]. split; [reflexivity|]. split; [reflexivity|].
  discriminate.
Qed.

(** X22. Match clamps a fingerprint that is not marked clamped and leaves
    a marked one alone: matching a fingerprint and matching its clamped
    copy are the same. *)
Lemma Match_clamps_once (E : Externals) (fp c : Fingerprint) :
  clamped fp = false -> NewClamped fp = Ok c -> Match E fp = Match E c.
Proof.
  intros Hfalse Hrun. destruct (NewClamped_flag _ _ Hrun) as [Htrue _].
  unfold Match. rewrite Hfalse, Htrue, Hrun. reflexivity.
Qed.

(** ** Equal lengths *)

Lemma decode_body_len (fp : string) (off i : nat) (s s' : slice) :
  decode_body fp off i s = Ok s' -> len s' = len s.
Proof.
  unfold decode_body. destruct (ParseUint (group fp i)) as [v| |]; try discriminate.
  rewrite bind_Ok. intros Hstore. apply store_len in Hstore. tauto.
Qed.

Lemma decode_lengths (fp : string) (codes times : slice) :
  decode fp = Ok (codes, times) ->
  len codes = (String.length fp / 5 / 2)%nat /\
  len times = (String.length fp / 5 / 2)%nat.
Proof.
  rewrite decode_unfold.
  set (h := (String.length fp / 5 / 2)%nat).
  destruct (for_range 0 h (decode_body fp 0) (make h)) as [ts| |] eqn:Hts;
    try discriminate.
  rewrite bind_Ok.
  destruct (for_range h _ (decode_body fp h) (make h)) as [cs| |] eqn:Hcs;
    try discriminate.
  rewrite bind_Ok. intros [= <- <-].
  split.
  - eapply (for_range_invariant (fun s => len s = h)); [| |exact Hcs].
    + intros i s s' Hs Hbody. apply decode_body_len in Hbody. congruence.
    + apply len_make.
  - eapply (for_range_invariant (fun s => len s = h)); [| |exact Hts].
    + intros i s s' Hs Hbody. apply decode_body_len in Hbody. congruence.
    + apply len_make.
Qed.

Lemma NewClamped_lengths (fp c : Fingerprint) :
  len (Codes fp) = len (Times fp) -> NewClamped fp = Ok c ->
  len (Codes c) = len (Times c).
Proof.
  intros Hlen Hrun.
  destruct (elems (Times fp)) as [|t0 tl] eqn:Htimes.
  { unfold NewClamped, index in Hrun. rewrite Htimes in Hrun. discriminate. }
  assert (H0 : elems (Times fp) !! 0%nat = Some t0) by (rewrite Htimes; reflexivity).
  pose proof (NewClamped_cases fp t0 H0) as Hcases. cbv zeta in Hcases.
  destruct Hcases as [[_ Hrun']|(pre & t & rest & _ & _ & _ & Hrun')];
    rewrite Hrun' in Hrun.
  - injection Hrun as <-. exact Hlen.
  - destruct (slice_to (Codes fp) (length pre)) as [codes'| |] eqn:Hcodes;
      try discriminate.
    rewrite bind_Ok in Hrun. injection Hrun as <-. simpl.
    apply slice_to_len in Hcodes. exact Hcodes.
Qed.

Lemma NewFingerprint_produced (E : Externals) (codegenFp : CodegenFp)
    (fp : Fingerprint) :
  NewFingerprint E codegenFp = Ok fp -> produced fp.
Proof.
  unfold NewFingerprint.
  destruct (inflate E (Code codegenFp)) as [inflated| |]; try discriminate.
  rewrite bind_Ok.
  destruct (decode inflated) as [[codes times]| |] eqn:Hdec; try discriminate.
  rewrite bind_Ok. intros [= <-]. econstructor. exact Hdec.
Qed.

(** C8. Every fingerprint the core produces, by a successful decoding or
    by the window clamper, has as many codes as times. *)
Theorem produced_equal_lengths (fp : Fingerprint) :
  produced fp -> len (Codes fp) = len (Times fp).
Proof.
  induction 1 as [inflated codes times meta Hdec|fp c _ IH Hrun].
  - simpl. destruct (decode_lengths _ _ _ Hdec) as [-> ->]. reflexivity.
  - eapply NewClamped_lengths; eassumption.
Qed.

Lemma produced_equal_lengths_witness :
  exists c, NewClamped (fingerprint_of [7764; 10] [5; 7763]) = Ok c /\
            produced c /\ len (Codes c) = len (Times c).
Proof.
  assert (Hd : produced (fingerprint_of [7764; 10] [5; 7763])).
  { apply (produced_by_decode "0000501e5301e540000a"). reflexivity. }
  eexists. split; [reflexivity|].
  assert (Hc : produced {| Codes := Slice [7764; 10] []; Times := Slice [5; 7763] [];
                           Meta := no_metadata; clamped := true |}).
  { eapply produced_by_clamp; [exact Hd|reflexivity]. }
  split; [exact Hc|]. exact (produced_equal_lengths _ Hc).
Defined.

(** ** The empty fingerprint *)

Lemma decode_short (inflated : string) :
  (String.length inflated < 5)%nat -> decode inflated = Ok (make 0, make 0).
Proof.
  intros Hlt. unfold decode.
  rewrite (Nat.div_small (String.length inflated) 5) by exact Hlt.
  reflexivity.
Qed.

(** C10, counterexample. Five hexadecimal digits are fewer than ten, and
    their decoding does not succeed with zero pairs: it panics. *)
Lemma decode_five_digits_panics :
  (String.length "00001" < 10)%nat /\ hex_string "00001" = true /\
  decode "00001" = Panic (IndexOutOfRange 0 0) /\
  ~ (exists codes times, decode "00001" = Ok (codes, times)).
Proof.
  split; [vm_compute; lia|]. split; [reflexivity|]. split; [reflexivity|].
  intros (codes & times & H). discriminate H.
Qed.

(** C10, as amended. The window clamper requires a non-empty fingerprint:
    on every fingerprint whose Times are empty (one decoded from a payload
    that inflates to fewer than five characters, where [decode] succeeds
    with zero pairs), NewClamped reads [fp.Times[0]] out of bounds, and so
    does Match on such a fingerprint that is not marked clamped. *)
Theorem NewClamped_requires_times (fp : Fingerprint) :
  elems (Times fp) = [] ->
  NewClamped fp = Panic (IndexOutOfRange 0 0) /\
  (clamped fp = false ->
     forall E, Match E fp = Panic (IndexOutOfRange 0 0)) /\
  (forall inflated, (String.length inflated < 5)%nat ->
     decode inflated = Ok (make 0, make 0) /\ elems (make 0) = []).
Proof.
  intros Hempty.
  assert (Hpanic : NewClamped fp = Panic (IndexOutOfRange 0 0)).
  { unfold NewClamped, index, len. rewrite Hempty. reflexivity. }
  split; [exact Hpanic|]. split.
  - intros Hc E. unfold Match. rewrite Hc, Hpanic. reflexivity.
  - intros inflated Hlt. split; [apply decode_short, Hlt|reflexivity].
Qed.

Lemma NewClamped_requires_times_witness :
  decode "0001" = Ok (make 0, make 0) /\
  NewClamped (fingerprint_of [] []) = Panic (IndexOutOfRange 0 0) /\
  (forall E, Match E (fingerprint_of [] []) = Panic (IndexOutOfRange 0 0)).
Proof.
  destruct (NewClamped_requires_times (fingerprint_of [] []) eq_refl)
    as (Hclamp & Hmatch & Hdecode).
  split; [|split; [exact Hclamp|exact (Hmatch eq_refl)]].
  apply Hdecode. vm_compute. lia.
Defined.

(** ** The match scorer: the key of a bucket *)

Lemma uint32_range (z : Z) : 0 <= uint32 z < 4294967296.
Proof. unfold uint32, uint32_mod. apply Z.mod_pos_bound. reflexivity. Qed.

(** With an [int] of 64 bits the conversion keeps the [uint32] difference
    as it is, never negative: the branch [dist < 0] is dead. *)
Lemma distance_64 (fpTime matchTime : Z) :
  distance 64 fpTime matchTime = uint32_sub fpTime matchTime.
Proof.
  unfold distance, uint32_sub, to_signed.
  pose proof (uint32_range (fpTime - matchTime)) as Hr.
  set (x := uint32 (fpTime - matchTime)) in *.
  change (2 ^ (64 - 1)) with 9223372036854775808.
  change (2 ^ 64) with 18446744073709551616.
  rewrite (Z.mod_small (x + 9223372036854775808)) by lia.
  destruct (x + 9223372036854775808 - 9223372036854775808 <? 0) eqn:Hneg.
  - apply Z.ltb_lt in Hneg. lia.
  - lia.
Qed.

Lemma distance_64_earlier_candidate (fpTime matchTime : Z) :
  0 <= matchTime <= fpTime -> fpTime < uint32_mod ->
  distance intSize fpTime matchTime = Z.abs (fpTime - matchTime).
Proof.
  intros Hle Hlt. unfold intSize. rewrite distance_64.
  unfold uint32_sub, uint32. unfold uint32_mod in *.
  rewrite Z.mod_small by lia. lia.
Qed.

Lemma distance_64_later_candidate (fpTime matchTime : Z) :
  0 <= fpTime < matchTime -> matchTime < uint32_mod ->
  distance intSize fpTime matchTime = uint32_mod - Z.abs (fpTime - matchTime).
Proof.
  intros Hle Hlt. unfold intSize. rewrite distance_64.
  unfold uint32_sub, uint32. unfold uint32_mod in *.
  change (2 ^ 32) with 4294967296 in *.
  symmetry. apply (Z.mod_unique_pos _ _ (-1)); lia.
Qed.

(** With an [int] of 32 bits the conversion gives the signed difference
    and the code computes its absolute value. *)
Lemma distance_32 (fpTime matchTime : Z) :
  0 <= fpTime < uint32_mod -> 0 <= matchTime < uint32_mod ->
  Z.abs (fpTime - matchTime) < 2 ^ 31 ->
  distance 32 fpTime matchTime = Z.abs (fpTime - matchTime).
Proof.
  unfold distance, uint32_sub, uint32, to_signed, uint32_mod.
  change (2 ^ (32 - 1)) with 2147483648. change (2 ^ 32) with 4294967296.
  change (2 ^ 31) with 2147483648.
  intros Hf Hm Habs.
  destruct (Z_le_gt_dec matchTime fpTime) as [Hle|Hgt].
  - rewrite (Z.mod_small (fpTime - matchTime)) by lia.
    rewrite (Z.mod_small (fpTime - matchTime + 2147483648)) by lia.
    destruct (_ <? 0) eqn:Hneg; [apply Z.ltb_lt in Hneg|]; lia.
  - assert (H1 : (fpTime - matchTime) mod 4294967296
                 = fpTime - matchTime + 4294967296).
    { symmetry. apply (Z.mod_unique_pos _ _ (-1)); lia. }
    rewrite H1.
    assert (H2 : (fpTime - matchTime + 4294967296 + 2147483648) mod 4294967296
                 = fpTime - matchTime + 2147483648).
    { symmetry. apply (Z.mod_unique_pos _ _ 1); lia. }
    rewrite H2.
    destruct (_ <? 0) eqn:Hneg; [|apply Z.ltb_ge in Hneg; lia].
    rewrite (Z.mod_small (- _ + 2147483648)) by lia. lia.
Qed.

(** One code, one query time and one candidate time: the histogram has one
    bucket, of count 1, under the key [distance] computes from the two
    discretized times. *)
Lemma timeDiffs_single_pair (code t u slop : Z) :
  0 < slop -> 0 <= t < uint32_mod -> 0 <= u < uint32_mod ->
  timeDiffs_of (fingerprint_of [code] [t]) (fingerprint_of [code] [u]) slop
  = Ok {[ distance intSize (t / slop * slop) (u / slop * slop) := 1 ]}.
Proof.
  intros Hslop Ht Hu.
  assert (Hd : forall x, 0 <= x < uint32_mod ->
            discretize x slop = Ok (x / slop * slop)).
  { intros x Hx. unfold discretize, uint32_div.
    destruct (slop =? 0) eqn:H0; [apply Z.eqb_eq in H0; lia|].
    rewrite bind_Ok. unfold uint32. rewrite Z.mod_small; [reflexivity|].
    pose proof (Z.mul_div_le x slop Hslop).
    pose proof (Z.div_pos x slop). nia. }
  unfold timeDiffs_of, getCodeTimeMap, fingerprint_of, len, index. simpl.
  rewrite (Hd u Hu). simpl. rewrite (Hd t Ht). simpl.
  rewrite lookup_empty. simpl. rewrite lookup_insert_eq. simpl.
  unfold incr_bucket. rewrite lookup_empty. reflexivity.
Qed.

(** C1, the code at the failing input. One shared code, query time 0,
    candidate time 2, slop 2: the absolute difference of the discretized
    times is 2, and the bucket that is incremented has the key
    [2^32 - 2]; with three codes at the offsets -2, 0 and +2 the two
    offsets of absolute value 2 land in two buckets. *)
Theorem timeDiffs_key_of_later_candidate :
  Z.abs (0 - 2) = 2 /\
  timeDiffs_of (fingerprint_of [1] [0]) (fingerprint_of [1] [2]) 2
    = Ok {[ 4294967294 := 1 ]} /\
  timeDiffs_of (fingerprint_of [1; 3; 2] [0; 2; 4])
               (fingerprint_of [1; 3; 2] [2; 2; 2]) 2
    = Ok {[ 4294967294 := 1; 0 := 1; 2 := 1 ]}.
Proof. repeat split; vm_compute; reflexivity. Qed.

(** ** The match scorer: a query without codes *)

Lemma F32_ge_nan (threshold : float32) : F32.ge S754_nan threshold = false.
Proof. destruct threshold; reflexivity. Qed.

Lemma getCodeTimeMap_0 (matchFp : Fingerprint) (slop : Z) :
  getCodeTimeMap matchFp 0 slop = Ok ∅.
Proof.
  unfold getCodeTimeMap.
  destruct (decide (len (Codes matchFp) < 0)%nat); [lia|reflexivity].
Qed.

(** C2, counterexample. The query has no codes; the confidence is the
    quotient 0/0, which is NaN and not 0. *)
Lemma calculateConfidence_no_codes_nan :
  calculateConfidence (fingerprint_of [] []) (fingerprint_of [1] [2]) 2 = Ok S754_nan /\
  calculateConfidence (fingerprint_of [] []) (fingerprint_of [1] [2]) 2
    <> Ok (F32.of_Z 0).
Proof. split; [reflexivity|discriminate]. Qed.

(** C2, as amended. For a query whose Codes are empty, calculateConfidence
    (any candidate, any slop) divides 0 by 0 without a guard and returns
    NaN; NaN is not at or above any minimum confidence. *)
Theorem calculateConfidence_no_codes (fp matchFp : Fingerprint) (slop : Z) :
  elems (Codes fp) = [] ->
  calculateConfidence fp matchFp slop = Ok S754_nan /\
  (forall threshold, F32.ge S754_nan threshold = false).
Proof.
  intros Hempty. split; [|apply F32_ge_nan].
  unfold calculateConfidence, timeDiffs_of, len. rewrite Hempty. simpl length.
  rewrite getCodeTimeMap_0. reflexivity.
Qed.

Lemma calculateConfidence_no_codes_witness :
  calculateConfidence (fingerprint_of [] [5]) (fingerprint_of [1; 2] [0; 4]) 0
    = Ok S754_nan.
Proof.
  apply (calculateConfidence_no_codes (fingerprint_of [] [5])). reflexivity.
Defined.

(** ** Best-match selection *)

Lemma set_Best_fields (m : MatchResult) :
  Best (set_Best m) = true /\ Confidence (set_Best m) = Confidence m /\
  match_TrackID (set_Best m) = match_TrackID m /\ Error (set_Best m) = Error m.
Proof. repeat split. Qed.

(** C5. On a non-empty list of results determineBestMatch returns the
    list with nothing changed but the [Best] field of the first result:
    that field is [true] after the call when the first result is the only
    one, or when [top - second >= top * 0.25] in [float32], and is what it
    was otherwise; every other result, and with it its flag, is as it was.
    On results none of which is flagged the flags after the call are the
    outcome of the rule for the first and [false] for every other.
    Confidences 90 and 60 give the flags [true; false] (30 against 22.5),
    90 and 85 give [false; false], a single result gives [true]. *)
Theorem determineBestMatch_rule (m0 : MatchResult) (rest : list MatchResult) :
  let rule := match rest with
              | [] => true
              | m1 :: _ => F32.ge (F32.sub (Confidence m0) (Confidence m1))
                                  (F32.mul (Confidence m0) bestMatchDiff)
              end in
  (exists top, determineBestMatch (m0 :: rest) = Ok (top :: rest) /\
     Best top = rule || Best m0 /\
     Confidence top = Confidence m0 /\ match_fp top = match_fp m0 /\
     match_TrackID top = match_TrackID m0 /\
     match_Filename top = match_Filename m0 /\
     match_UPC top = match_UPC m0 /\ match_ISRC top = match_ISRC m0 /\
     IngestedAt top = IngestedAt m0 /\ Error top = Error m0 /\
     (Forall (fun m => Best m = false) (m0 :: rest) ->
        Best <$> top :: rest = rule :: replicate (length rest) false)) /\
  (F32.sub (F32.of_Z 90) (F32.of_Z 60) = F32.of_Z 30 /\
   F32.mul (F32.of_Z 90) bestMatchDiff = F32.of_scaled 45 (-1) /\
   F32.ge (F32.of_Z 30) (F32.of_scaled 45 (-1)) = true /\
   exists out, determineBestMatch [result_with 90; result_with 60] = Ok out /\
     Best <$> out = [true; false] /\
     Confidence <$> out = [F32.of_Z 90; F32.of_Z 60]) /\
  (F32.sub (F32.of_Z 90) (F32.of_Z 85) = F32.of_Z 5 /\
   F32.ge (F32.of_Z 5) (F32.of_scaled 45 (-1)) = false /\
   exists out, determineBestMatch [result_with 90; result_with 85] = Ok out /\
     Best <$> out = [false; false] /\
     Confidence <$> out = [F32.of_Z 90; F32.of_Z 85]) /\
  (forall c, exists out, determineBestMatch [result_with c] = Ok out /\
     Best <$> out = [true] /\ Confidence <$> out = [F32.of_Z c]).
Proof.
  intros rule. split; [|split; [|split]].
  - assert (Hflags : Forall (fun m => Best m = false) rest ->
                     Best <$> rest = replicate (length rest) false).
    { intros Hrest. induction Hrest as [|m l Hm _ IH]; [reflexivity|].
      rewrite fmap_cons, Hm, IH. reflexivity. }
    assert (Hrun : determineBestMatch (m0 :: rest)
                   = Ok ((if rule then set_Best m0 else m0) :: rest)).
    { subst rule. destruct rest as [|m1 rest]; [reflexivity|]. simpl.
      destruct (F32.ge _ _); reflexivity. }
    exists (if rule then set_Best m0 else m0).
    split; [exact Hrun|].
    destruct rule; repeat (split; [reflexivity|]);
      intros Hall; inversion Hall as [|? ? H0 Hrest]; subst;
      rewrite fmap_cons, (Hflags Hrest); [reflexivity|rewrite H0; reflexivity].
  - split; [vm_compute; reflexivity|]. split; [vm_compute; reflexivity|].
    split; [vm_compute; reflexivity|].
    eexists. split; [vm_compute; reflexivity|]. split; reflexivity.
  - split; [vm_compute; reflexivity|]. split; [vm_compute; reflexivity|].
    eexists. split; [vm_compute; reflexivity|]. split; reflexivity.
  - intros c. eexists. split; [reflexivity|]. split; reflexivity.
Qed.

(** The rule at work on two results built as Match builds them. *)
Lemma determineBestMatch_rule_witness :
  Forall (fun m => Best m = false) [result_with 90; result_with 60] /\
  exists top,
    determineBestMatch [result_with 90; result_with 60] = Ok [top; result_with 60] /\
    Best top = true /\ Confidence top = F32.of_Z 90.
Proof.
  split; [repeat constructor|].
  destruct (proj1 (determineBestMatch_rule (result_with 90) [result_with 60]))
    as (top & Hrun & Hbest & Hconf & _).
  exists top. split; [exact Hrun|]. split; [exact Hbest|exact Hconf].
Defined.

(** On results none of which is flagged, as Match builds them, the flags
    after determineBestMatch are the outcome of the rule for the first
    result and [false] for every other. *)
Lemma determineBestMatch_flags (m0 : MatchResult) (rest : list MatchResult) :
  Forall (fun m => Best m = false) (m0 :: rest) ->
  exists out, determineBestMatch (m0 :: rest) = Ok out /\
    Confidence <$> out = Confidence <$> (m0 :: rest) /\
    Best <$> out =
      match rest with
      | [] => true
      | m1 :: _ => F32.ge (F32.sub (Confidence m0) (Confidence m1))
                          (F32.mul (Confidence m0) bestMatchDiff)
      end :: replicate (length rest) false.
Proof.
  intros Hall. inversion Hall as [|? ? H0 Hrest]; subst.
  assert (Hflags : Best <$> rest = replicate (length rest) false).
  { clear -Hrest. induction Hrest as [|m l Hm _ IH]; [reflexivity|].
    rewrite fmap_cons, Hm, IH. reflexivity. }
  destruct rest as [|m1 rest].
  - eexists. split; [reflexivity|]. split; reflexivity.
  - simpl determineBestMatch. destruct (F32.ge _ _);
      (eexists; split; [reflexivity|]; split; [reflexivity|]);
      simpl; simpl in Hflags; rewrite Hflags; [reflexivity|rewrite H0; reflexivity].
Qed.

(** ** The batch orchestrator *)

(** The goroutine turns every returned error into the value of its slot;
    what it cannot turn into a value is a panic. *)
Lemma matchGroup_no_err (E : Externals) (codegenFp : CodegenFp) (e : error) :
  matchGroup E codegenFp <> Err e.
Proof.
  unfold matchGroup.
  destruct (NewFingerprint E codegenFp) as [fp| |]; try discriminate.
  destruct (Match E fp); discriminate.
Qed.

Lemma matchGroup_slot (E : Externals) (codegenFp : CodegenFp) :
  (forall e, NewFingerprint E codegenFp = Err e ->
     matchGroup E codegenFp = Ok (newMatchGroupError e)) /\
  (forall fp e, NewFingerprint E codegenFp = Ok fp -> Match E fp = Err e ->
     matchGroup E codegenFp = Ok (newMatchGroupError e)) /\
  (forall fp matches, NewFingerprint E codegenFp = Ok fp -> Match E fp = Ok matches ->
     matchGroup E codegenFp = Ok matches) /\
  (forall p, NewFingerprint E codegenFp = Panic p ->
     matchGroup E codegenFp = Panic p) /\
  (forall fp p, NewFingerprint E codegenFp = Ok fp -> Match E fp = Panic p ->
     matchGroup E codegenFp = Panic p).
Proof.
  unfold matchGroup. repeat split.
  - intros e ->. reflexivity.
  - intros fp e -> ->. reflexivity.
  - intros fp matches -> ->. reflexivity.
  - intros p ->. reflexivity.
  - intros fp p -> ->. reflexivity.
Qed.

Section Schedules.
Variable E : Externals.
Variable codegenList : list CodegenFp.

(** No goroutine panics: whatever the order, every slot whose goroutine
    has run holds the value of that goroutine, and the others are as they
    were. *)
Lemma run_goroutines_slots (rs : list (list MatchResult)) :
  Forall2 (fun q r => matchGroup E q = Ok r) codegenList rs ->
  forall order (allMatches : list (list MatchResult)),
    length allMatches = length codegenList ->
    exists slots, run_goroutines E codegenList order allMatches = Ok slots /\
      length slots = length codegenList /\
      forall i, slots !! i = if decide (i ∈ order) then rs !! i else allMatches !! i.
Proof.
  intros Hrs.
  pose proof (Forall2_length _ _ _ Hrs) as Hlen.
  induction order as [|g order IH]; intros allMatches Hslots.
  - exists allMatches. split; [reflexivity|]. split; [exact Hslots|].
    intros i. destruct (decide (i ∈ [])) as [Hin|]; [|reflexivity].
    inversion Hin.
  - unfold run_goroutines. cbn [for_each]. fold (run_goroutines E codegenList order).
    destruct (codegenList !! g) as [q|] eqn:Hq.
    + destruct (Forall2_lookup_l _ _ _ _ _ Hrs Hq) as (r & Hr & Hrun).
      rewrite Hrun, !bind_Ok.
      destruct (IH (<[g := r]> allMatches)) as (slots & Hok & Hl & Hlook).
      { rewrite length_insert. exact Hslots. }
      exists slots. split; [exact Hok|]. split; [exact Hl|].
      intros i. rewrite Hlook.
      destruct (decide (i ∈ order)) as [Hin|Hnin].
      * rewrite decide_True by (right; exact Hin). reflexivity.
      * destruct (decide (i = g)) as [->|Hne].
        -- rewrite decide_True by left.
           rewrite list_lookup_insert_eq; [congruence|].
           apply lookup_lt_Some in Hq. lia.
        -- rewrite decide_False by (intros Hin; inversion Hin; subst; tauto).
           apply list_lookup_insert_ne. congruence.
    + rewrite bind_Ok.
      destruct (IH allMatches Hslots) as (slots & Hok & Hl & Hlook).
      exists slots. split; [exact Hok|]. split; [exact Hl|].
      intros i. rewrite Hlook.
      destruct (decide (i ∈ order)) as [Hin|Hnin].
      * rewrite decide_True by (right; exact Hin). reflexivity.
      * destruct (decide (i = g)) as [->|Hne].
        -- rewrite decide_True by left.
           apply lookup_ge_None in Hq.
           rewrite (proj2 (lookup_ge_None allMatches g)) by lia.
           rewrite (proj2 (lookup_ge_None rs g)) by lia. reflexivity.
        -- rewrite decide_False by (intros Hin; inversion Hin; subst; tauto).
           reflexivity.
Qed.

(** Every schedule of the goroutines returns the values of the goroutines
    in the order of the input. *)
Lemma schedule_independent (rs : list (list MatchResult)) (order : list nat) :
  Forall2 (fun q r => matchGroup E q = Ok r) codegenList rs ->
  order ≡ₚ seq 0 (length codegenList) ->
  run_goroutines E codegenList order (replicate (length codegenList) []) = Ok rs.
Proof.
  intros Hrs Hperm.
  pose proof (Forall2_length _ _ _ Hrs) as Hlen.
  destruct (run_goroutines_slots rs Hrs order (replicate (length codegenList) []))
    as (slots & -> & Hl & Hlook); [apply length_replicate|].
  f_equal. apply list_eq. intros i. rewrite Hlook.
  destruct (decide (i ∈ order)) as [Hin|Hnin]; [reflexivity|].
  assert (Hge : (length codegenList <= i)%nat).
  { destruct (decide (length codegenList <= i)%nat) as [|Hlt]; [assumption|].
    exfalso. apply Hnin. rewrite Hperm. apply elem_of_seq. lia. }
  rewrite (proj2 (lookup_ge_None rs i)) by lia.
  apply lookup_ge_None. rewrite length_replicate. exact Hge.
Qed.

(** A goroutine that panics takes the program down under every schedule
    that runs it. *)
Lemma run_goroutines_panic (i : nat) (q : CodegenFp) (p : runtime_error) :
  codegenList !! i = Some q -> matchGroup E q = Panic p ->
  forall order allMatches, i ∈ order ->
    exists p', run_goroutines E codegenList order allMatches = Panic p'.
Proof.
  intros Hq Hp. induction order as [|g order IH]; intros allMatches Hin.
  - inversion Hin.
  - unfold run_goroutines. cbn [for_each]. fold (run_goroutines E codegenList order).
    destruct (decide (g = i)) as [->|Hne].
    + rewrite Hq, Hp. eexists. reflexivity.
    + assert (Hin' : i ∈ order) by (inversion Hin; subst; tauto).
      destruct (codegenList !! g) as [q'|].
      * destruct (matchGroup E q') as [r|e|p'] eqn:Hq'.
        -- rewrite !bind_Ok. apply IH, Hin'.
        -- exfalso. exact (matchGroup_no_err _ _ _ Hq').
        -- eexists. reflexivity.
      * rewrite bind_Ok. apply IH, Hin'.
Qed.

End Schedules.

Lemma MatchAll_single (E : Externals) (codegenFp : CodegenFp) :
  MatchAll E [codegenFp] = (matches ← matchGroup E codegenFp; Ok [matches]).
Proof.
  unfold MatchAll, run_goroutines. simpl.
  destruct (matchGroup E codegenFp); reflexivity.
Qed.

(** C4, on the code. Under every schedule of the goroutines: when no
    goroutine panics, MatchAll returns one slot per query, in the order of
    the input, each slot being what its query gives when it is the whole
    batch, and a query whose decoding or matching returns an error has the
    single error-carrying result in its slot. When the goroutine of one
    query panics (an inflated string with an odd number of groups, or an
    empty fingerprint), the program dies and no slot is returned. *)
Theorem MatchAll_isolation_up_to_panics (E : Externals)
    (codegenList : list CodegenFp) (order : list nat) :
  order ≡ₚ seq 0 (length codegenList) ->
  (forall rs, Forall2 (fun q r => matchGroup E q = Ok r) codegenList rs ->
     run_goroutines E codegenList order (replicate (length codegenList) []) = Ok rs /\
     MatchAll E codegenList = Ok rs /\
     length rs = length codegenList /\
     forall i q r, codegenList !! i = Some q -> rs !! i = Some r ->
       MatchAll E [q] = Ok [r] /\
       (forall e, NewFingerprint E q = Err e -> r = newMatchGroupError e) /\
       (forall fp e, NewFingerprint E q = Ok fp -> Match E fp = Err e ->
          r = newMatchGroupError e)) /\
  (forall i q p, codegenList !! i = Some q -> matchGroup E q = Panic p ->
     (exists p', run_goroutines E codegenList order
                   (replicate (length codegenList) []) = Panic p') /\
     (exists p', MatchAll E codegenList = Panic p')).
Proof.
  intros Hperm. split.
  - intros rs Hrs.
    split; [apply schedule_independent; assumption|].
    split; [apply schedule_independent; [assumption|reflexivity]|].
    split; [symmetry; exact (Forall2_length _ _ _ Hrs)|].
    intros i q r Hq Hr.
    destruct (Forall2_lookup_l _ _ _ _ _ Hrs Hq) as (r' & Hr' & Hrun).
    assert (r' = r) as -> by congruence.
    destruct (matchGroup_slot E q) as (Herr1 & Herr2 & _).
    split; [rewrite MatchAll_single, Hrun; reflexivity|].
    split.
    + intros e He. specialize (Herr1 e He). congruence.
    + intros fp e Hfp He. specialize (Herr2 fp e Hfp He). congruence.
  - intros i q p Hq Hp.
    assert (Hi : i ∈ seq 0 (length codegenList)).
    { apply elem_of_seq. apply lookup_lt_Some in Hq. lia. }
    split.
    + eapply run_goroutines_panic; [exact Hq|exact Hp|]. rewrite Hperm. exact Hi.
    + eapply run_goroutines_panic; [exact Hq|exact Hp|exact Hi].
Qed.

Lemma MatchAll_isolation_up_to_panics_witness :
  (exists good,
     run_goroutines example_externals
       [codegen_of "00005000070000a0000b"; codegen_of "0000g"; codegen_of "00005000070000a0000b"]
       [2; 0; 1]%nat [[]; []; []]
     = Ok [good; newMatchGroupError (NumError "ParseUint" "0000g" ErrSyntax); good]) /\
  (exists p', MatchAll example_externals
                [codegen_of "00005000070000a0000b"; codegen_of "00001"] = Panic p').
Proof.
  split.
  - eexists.
    refine (proj1 (proj1 (MatchAll_isolation_up_to_panics example_externals
      [codegen_of "00005000070000a0000b"; codegen_of "0000g";
       codegen_of "00005000070000a0000b"] [2; 0; 1]%nat _) _ _)).
    + simpl. etransitivity; [apply perm_swap|]. apply perm_skip, perm_swap.
    + repeat constructor.
  - refine (proj2 (proj2 (MatchAll_isolation_up_to_panics example_externals
      [codegen_of "00005000070000a0000b"; codegen_of "00001"] [0; 1]%nat _)
      1%nat (codegen_of "00001") (IndexOutOfRange 0 0) _ _)); reflexivity.
Defined.

(** ** The embedding at work *)

(** Scoring a fingerprint against itself gives 100. *)
Example self_match_confidence :
  calculateConfidence (fingerprint_of [10; 11; 12] [5; 7; 40])
                      (fingerprint_of [10; 11; 12] [5; 7; 40]) 2
  = Ok (F32.of_Z 100).
Proof. reflexivity. Qed.

(** The quality at the boundaries of the bitrate. *)
Example quality_boundaries :
  let at_bitrate b :=
    Quality {| Codes := nil_slice; Times := nil_slice; clamped := false;
               Meta := {| TrackID := 0; UPC := ""; ISRC := "";
                          Version := S754_zero false; Filename := "";
                          Bitrate := F64.of_Z b; Duration := S754_zero false |} |} in
  at_bitrate 0 = qualityHigh /\ at_bitrate 256 = qualityHigh /\
  at_bitrate 255 = qualityMedium /\ at_bitrate 128 = qualityMedium /\
  at_bitrate 127 = qualityLow.
Proof. repeat split. Qed.

(** One query through the whole engine, the store holding the query
    itself: one result, of confidence 100, flagged best. *)
Example match_all_one_query :
  exists m, MatchAll example_externals [codegen_of "00005000070000a0000b"] = Ok [[m]] /\
            Best m = true /\ Confidence m = F32.of_Z 100 /\ Error m = None.
Proof. eexists. split; [vm_compute; reflexivity|]. repeat split. Qed.

(** * Further properties of the code *)

(** ** decode: the values it returns *)

Lemma digit_val_range (c : ascii) (d : Z) :
  digit_val c = Some d -> 0 <= d.
Proof.
  unfold digit_val.
  repeat match goal with
  | |- (if ?b then _ else _) = _ -> _ => destruct b eqn:?
  end; intros [= <-]; lia.
Qed.

(** What [parse_digits] returns lies in the interval the digits already
    read leave open, and it returns only on hexadecimal digits. *)
Lemma parse_digits_bound :
  forall s n v, parse_digits s n = inr v -> 0 <= n ->
    hex_string s = true /\
    n * 16 ^ Z.of_nat (String.length s) <= v
      < (n + 1) * 16 ^ Z.of_nat (String.length s).
Proof.
  induction s as [|c s IH]; intros n v Hrun Hn; simpl in Hrun.
  - injection Hrun as <-. simpl. split; [reflexivity|lia].
  - destruct (digit_val c) as [d|] eqn:Hd; [|discriminate].
    destruct (16 <=? d) eqn:H16; [discriminate|].
    destruct (uint32_mod <=? n * 16 + d); [discriminate|].
    apply Z.leb_gt in H16. pose proof (digit_val_range _ _ Hd) as Hd0.
    destruct (IH _ _ Hrun) as [Hhex Hv]; [lia|].
    split.
    + simpl. unfold is_hex. rewrite Hd, Hhex.
      apply Z.ltb_lt in H16. rewrite H16. reflexivity.
    + cbn [String.length]. rewrite Nat2Z.inj_succ, Z.pow_succ_r by lia.
      assert (Hpos : 0 < 16 ^ Z.of_nat (String.length s))
        by (apply Z.pow_pos_nonneg; lia).
      nia.
Qed.

(** Up to eight digits there is no range error. *)
Lemma parse_digits_no_range :
  forall s n, 0 <= n ->
    (n + 1) * 16 ^ Z.of_nat (String.length s) <= uint32_mod ->
    parse_digits s n <> inl ErrRange.
Proof.
  induction s as [|c s IH]; intros n Hn Hbound; simpl; [discriminate|].
  destruct (digit_val c) as [d|] eqn:Hd; [|discriminate].
  destruct (16 <=? d) eqn:H16; [discriminate|].
  apply Z.leb_gt in H16. pose proof (digit_val_range _ _ Hd) as Hd0.
  cbn [String.length] in Hbound.
  rewrite Nat2Z.inj_succ, Z.pow_succ_r in Hbound by lia.
  assert (Hpos : 0 < 16 ^ Z.of_nat (String.length s))
    by (apply Z.pow_pos_nonneg; lia).
  destruct (uint32_mod <=? n * 16 + d) eqn:Hr.
  - apply Z.leb_le in Hr. nia.
  - apply IH; [lia|nia].
Qed.

Lemma ParseUint_ok_group (s : string) (v : Z) :
  String.length s = 5%nat -> ParseUint s = Ok v ->
  hex_string s = true /\ 0 <= v < 2 ^ 20.
Proof.
  intros Hlen Hrun. unfold ParseUint in Hrun.
  destruct s as [|c s]; [discriminate|].
  destruct (parse_digits (String c s) 0) as [e|v'] eqn:Hp; [discriminate|].
  injection Hrun as ->.
  destruct (parse_digits_bound _ _ _ Hp) as [Hhex Hv]; [lia|].
  rewrite Hlen in Hv. split; [exact Hhex|]. simpl in Hv. simpl. lia.
Qed.

Lemma ParseUint_err_group (s : string) (e : error) :
  String.length s = 5%nat -> ParseUint s = Err e ->
  hex_string s = false /\ e = NumError "ParseUint" s ErrSyntax.
Proof.
  intros Hlen Hrun.
  destruct (hex_string s) eqn:Hhex.
  - destruct (ParseUint_hex s Hlen Hhex) as (v & Hv & _). congruence.
  - split; [reflexivity|]. unfold ParseUint in Hrun.
    destruct s as [|c s]; [discriminate|].
    destruct (parse_digits (String c s) 0) as [[|]|v'] eqn:Hp.
    + congruence.
    + exfalso. apply (parse_digits_no_range (String c s) 0); [lia| |exact Hp].
      rewrite Hlen. unfold uint32_mod. simpl. lia.
    + discriminate.
Qed.

Section DecodeLoopInversion.
Variable fp : string.
Variable off : nat.

(** A loop of [decode] that ends has parsed every group of its range and
    stored its value at the index of the group, leaving what lies before
    the range as it was. *)
Lemma decode_loop_values :
  forall n lo s s', (off <= lo)%nat ->
    for_range lo n (decode_body fp off) s = Ok s' ->
    (forall i, (lo <= i < lo + n)%nat ->
       exists v, ParseUint (group fp i) = Ok v /\
                 elems s' !! (i - off)%nat = Some (uint32 v)) /\
    (forall k, (k < lo - off)%nat -> elems s' !! k = elems s !! k) /\
    len s' = len s /\ spare s' = spare s.
Proof.
  induction n as [|n IH]; intros lo s s' Hoff Hrun.
  - simpl in Hrun. injection Hrun as <-.
    split; [intros i Hi; lia|]. auto.
  - rewrite for_range_S in Hrun.
    destruct (decode_body fp off lo s) as [s1| |] eqn:Hbody; try discriminate.
    rewrite bind_Ok in Hrun.
    unfold decode_body in Hbody.
    destruct (ParseUint (group fp lo)) as [v| |] eqn:Hv; try discriminate.
    rewrite bind_Ok in Hbody.
    unfold store in Hbody.
    destruct (decide (lo - off < len s)%nat) as [Hin|]; [|discriminate].
    injection Hbody as <-.
    destruct (IH (S lo) _ s' ltac:(lia) Hrun) as (Hvals & Hbefore & Hlen & Hspare).
    simpl in Hbefore, Hlen, Hspare.
    split; [|split; [|split]].
    + intros i Hi. destruct (decide (i = lo)) as [->|Hne].
      * exists v. split; [exact Hv|].
        rewrite Hbefore by lia. apply list_lookup_insert_eq. exact Hin.
      * apply Hvals. lia.
    + intros k Hk. rewrite Hbefore by lia. apply list_lookup_insert_ne. lia.
    + rewrite Hlen. unfold len. simpl. apply length_insert.
    + exact Hspare.
Qed.

(** A loop of [decode] that returns an error has met a group that is not
    hexadecimal, after hexadecimal groups only, and the error is the
    syntax error of that group. *)
Lemma decode_loop_err_inv :
  forall n lo s e,
    (forall i, (lo <= i < lo + n)%nat -> String.length (group fp i) = 5%nat) ->
    for_range lo n (decode_body fp off) s = Err e ->
    exists i, (lo <= i < lo + n)%nat /\
      e = NumError "ParseUint" (group fp i) ErrSyntax /\
      hex_string (group fp i) = false /\
      (forall k, (lo <= k < i)%nat -> hex_string (group fp k) = true).
Proof.
  induction n as [|n IH]; intros lo s e H5 Hrun; [discriminate|].
  rewrite for_range_S in Hrun.
  destruct (decode_body fp off lo s) as [s1|e1|] eqn:Hbody; try discriminate.
  - rewrite bind_Ok in Hrun.
    destruct (IH (S lo) s1 e) as (i & Hi & He & Hbad & Hbefore); [|exact Hrun|].
    { intros i Hi. apply H5. lia. }
    exists i. split; [lia|]. split; [exact He|]. split; [exact Hbad|].
    intros k Hk. destruct (decide (k = lo)) as [->|Hne]; [|apply Hbefore; lia].
    unfold decode_body in Hbody.
    destruct (ParseUint (group fp lo)) as [v| |] eqn:Hv; try discriminate.
    apply (ParseUint_ok_group _ v); [apply H5; lia|exact Hv].
  - injection Hrun as <-. exists lo. split; [lia|].
    unfold decode_body in Hbody.
    destruct (ParseUint (group fp lo)) as [v|e'|] eqn:Hv.
    + rewrite bind_Ok in Hbody. unfold store in Hbody.
      destruct (decide _); discriminate.
    + injection Hbody as <-.
      destruct (ParseUint_err_group _ _ (H5 lo ltac:(lia)) Hv) as [Hbad ->].
      split; [reflexivity|]. split; [exact Hbad|]. intros k Hk. lia.
    + discriminate.
Qed.

End DecodeLoopInversion.

(** Everything a successful [decode] tells: the number of groups is even,
    both arrays have half that number of elements and no spare capacity,
    and the element [i] of each array is the value of its group. *)
Lemma decode_ok_inv (fp : string) (codes times : slice) :
  decode fp = Ok (codes, times) ->
  let h := (String.length fp / 5 / 2)%nat in
  (String.length fp / 5 = 2 * h)%nat /\
  len codes = h /\ len times = h /\ spare codes = [] /\ spare times = [] /\
  forall i, (i < h)%nat ->
    exists t c, ParseUint (group fp i) = Ok t /\
                ParseUint (group fp (h + i)) = Ok c /\
                elems times !! i = Some t /\ elems codes !! i = Some c /\
                0 <= t < 2 ^ 20 /\ 0 <= c < 2 ^ 20.
Proof.
  intros Hdec h. rewrite decode_unfold in Hdec. fold h in Hdec.
  set (n := (String.length fp / 5)%nat) in *.
  destruct (for_range 0 h (decode_body fp 0) (make h)) as [ts| |] eqn:Hts;
    try discriminate.
  rewrite bind_Ok in Hdec.
  destruct (for_range h (n - h) (decode_body fp h) (make h)) as [cs| |] eqn:Hcs;
    try discriminate.
  rewrite bind_Ok in Hdec. injection Hdec as <- <-.
  destruct (decode_loop_values fp 0 _ _ _ _ (Nat.le_refl 0) Hts)
    as (Hvt & _ & Hlt & Hst).
  destruct (decode_loop_values fp h _ _ _ _ (Nat.le_refl h) Hcs)
    as (Hvc & _ & Hlc & Hsc).
  rewrite len_make in Hlt, Hlc.
  assert (Hn : (n = 2 * h)%nat).
  { destruct (half_cases n) as [Heven|Hodd]; [exact Heven|]. fold h in Hodd.
    exfalso. destruct (Hvc (2 * h)%nat) as (v & _ & Hlook); [lia|].
    apply lookup_lt_Some in Hlook. unfold len in Hlc. lia. }
  assert (H5 : forall i, (i < n)%nat -> String.length (group fp i) = 5%nat)
    by (intros; apply group_length; assumption).
  split; [exact Hn|]. split; [exact Hlc|]. split; [exact Hlt|].
  split; [exact Hsc|]. split; [exact Hst|].
  intros i Hi.
  destruct (Hvt i) as (t & Ht & Hlookt); [lia|].
  destruct (Hvc (h + i)%nat) as (c & Hc & Hlookc); [lia|].
  destruct (ParseUint_ok_group _ _ (H5 i ltac:(lia)) Ht) as [_ Htr].
  destruct (ParseUint_ok_group _ _ (H5 (h + i)%nat ltac:(lia)) Hc) as [_ Hcr].
  exists t, c. split; [exact Ht|]. split; [exact Hc|].
  assert (Hu : forall v, 0 <= v < 2 ^ 20 -> uint32 v = v).
  { intros v Hv. unfold uint32, uint32_mod. apply Z.mod_small.
    change (2 ^ 20) with 1048576 in Hv. change (2 ^ 32) with 4294967296. lia. }
  rewrite Hu in Hlookt, Hlookc by assumption.
  rewrite Nat.sub_0_r in Hlookt.
  replace (h + i - h)%nat with i in Hlookc by lia.
  auto.
Qed.

(** X1. When [decode] succeeds, the time [i] is the number written in the
    group [i] of the string and the code [i] the number written in the
    group [h + i], [h] being the number of pairs: times first, then codes,
    paired by index. Both arrays have [h] elements and no capacity beyond. *)
Theorem decode_pairs_by_index (fp : string) (codes times : slice) :
  decode fp = Ok (codes, times) ->
  let h := (String.length fp / 5 / 2)%nat in
  len codes = h /\ len times = h /\ cap codes = h /\ cap times = h /\
  forall i, (i < h)%nat ->
    exists t c, ParseUint (group fp i) = Ok t /\
                ParseUint (group fp (h + i)) = Ok c /\
                index times i = Ok t /\ index codes i = Ok c.
Proof.
  intros Hdec h.
  destruct (decode_ok_inv _ _ _ Hdec) as (_ & Hlc & Hlt & Hsc & Hst & Hvals).
  fold h in Hlc, Hlt, Hvals.
  split; [exact Hlc|]. split; [exact Hlt|].
  split; [unfold cap; rewrite Hsc; unfold len in Hlc; simpl; lia|].
  split; [unfold cap; rewrite Hst; unfold len in Hlt; simpl; lia|].
  intros i Hi. destruct (Hvals i Hi) as (t & c & Ht & Hc & Hlt' & Hlc' & _).
  exists t, c. unfold index. rewrite Hlt', Hlc'. auto.
Qed.

Lemma decode_pairs_by_index_witness :
  exists codes times, decode "0000501e5301e540000a" = Ok (codes, times) /\
    index times 1 = Ok 7763 /\ index codes 1 = Ok 10.
Proof.
  exists (Slice [7764; 10] []), (Slice [5; 7763] []).
  split; [reflexivity|].
  destruct (decode_pairs_by_index "0000501e5301e540000a"
              (Slice [7764; 10] []) (Slice [5; 7763] []) eq_refl)
    as (_ & _ & _ & _ & Hvals).
  destruct (Hvals 1%nat ltac:(vm_compute; lia)) as (t & c & Ht & Hc & Hit & Hic).
  vm_compute in Ht, Hc. injection Ht as <-. injection Hc as <-. auto.
Defined.

(** X2. Every time and every code that [decode] returns is a number of
    twenty bits, from 0 to 0xFFFFF. *)
Theorem decode_values_20_bits (fp : string) (codes times : slice) :
  decode fp = Ok (codes, times) ->
  Forall (fun v => 0 <= v <= 1048575) (elems codes) /\
  Forall (fun v => 0 <= v <= 1048575) (elems times).
Proof.
  intros Hdec.
  destruct (decode_ok_inv _ _ _ Hdec) as (_ & Hlc & Hlt & _ & _ & Hvals).
  change (2 ^ 20) with 1048576 in Hvals.
  split; apply Forall_lookup; intros i v Hlook.
  - pose proof (lookup_lt_Some _ _ _ Hlook) as Hi. fold (len codes) in Hi.
    rewrite Hlc in Hi.
    destruct (Hvals i Hi) as (t & c & _ & _ & _ & Hc & _ & Hr).
    assert (v = c) as -> by congruence. lia.
  - pose proof (lookup_lt_Some _ _ _ Hlook) as Hi. fold (len times) in Hi.
    rewrite Hlt in Hi.
    destruct (Hvals i Hi) as (t & c & _ & _ & Ht & _ & Hr & _).
    assert (v = t) as -> by congruence. lia.
Qed.

Lemma decode_values_20_bits_witness :
  Forall (fun v => 0 <= v <= 1048575) [1048575; 10] /\
  Forall (fun v => 0 <= v <= 1048575) [5; 7763].
Proof.
  exact (decode_values_20_bits "0000501e53fffff0000a"
           (Slice [1048575; 10] []) (Slice [5; 7763] []) eq_refl).
Defined.

(** X3. When [decode] returns an error, the error is the syntax error of
    [strconv.ParseUint] on one of the complete groups, that group is not
    hexadecimal and every group before it is: the first invalid group is
    reported, and a range error never occurs. *)
Theorem decode_error_is_first_invalid_group (fp : string) (e : error) :
  decode fp = Err e ->
  exists i, (i < String.length fp / 5)%nat /\
    e = NumError "ParseUint" (group fp i) ErrSyntax /\
    hex_string (group fp i) = false /\
    forall k, (k < i)%nat -> hex_string (group fp k) = true.
Proof.
  intros Hdec. rewrite decode_unfold in Hdec.
  set (n := (String.length fp / 5)%nat) in *. set (h := (n / 2)%nat) in *.
  assert (Hh : (n = 2 * h \/ n = 2 * h + 1)%nat) by apply half_cases.
  assert (H5 : forall i, (i < n)%nat -> String.length (group fp i) = 5%nat)
    by (intros; apply group_length; assumption).
  destruct (for_range 0 h (decode_body fp 0) (make h)) as [ts|e1|] eqn:Hts;
    try discriminate.
  - rewrite bind_Ok in Hdec.
    destruct (for_range h (n - h) (decode_body fp h) (make h)) as [cs|e2|] eqn:Hcs;
      try discriminate.
    injection Hdec as <-.
    assert (H5c : forall i, (h <= i < h + (n - h))%nat ->
                    String.length (group fp i) = 5%nat)
      by (intros; apply H5; lia).
    destruct (decode_loop_err_inv fp h _ _ _ _ H5c Hcs)
      as (i & Hi & He & Hbad & Hbefore).
    exists i. split; [lia|]. split; [exact He|]. split; [exact Hbad|].
    intros k Hk. destruct (decide (h <= k)%nat); [apply Hbefore; lia|].
    destruct (decode_loop_values fp 0 _ _ _ _ (Nat.le_refl 0) Hts) as (Hvt & _).
    destruct (Hvt k) as (v & Hv & _); [lia|].
    apply (ParseUint_ok_group _ v); [apply H5; lia|exact Hv].
  - injection Hdec as <-.
    assert (H5t : forall i, (0 <= i < 0 + h)%nat ->
                    String.length (group fp i) = 5%nat)
      by (intros; apply H5; lia).
    destruct (decode_loop_err_inv fp 0 _ _ _ _ H5t Hts)
      as (i & Hi & He & Hbad & Hbefore).
    exists i. split; [lia|]. split; [exact He|]. split; [exact Hbad|].
    intros k Hk. apply Hbefore. lia.
Qed.

Lemma decode_error_is_first_invalid_group_witness :
  decode "000010x0020000g00004" = Err (NumError "ParseUint" "0x002" ErrSyntax) /\
  exists i, (i < 4)%nat /\
    hex_string (group "000010x0020000g00004" i) = false /\
    forall k, (k < i)%nat -> hex_string (group "000010x0020000g00004" k) = true.
Proof.
  split; [reflexivity|].
  destruct (decode_error_is_first_invalid_group "000010x0020000g00004"
              (NumError "ParseUint" "0x002" ErrSyntax) eq_refl)
    as (i & Hi & _ & Hbad & Hbefore).
  exists i. auto.
Defined.

(** X4. [decode] panics in one case only: every complete group is
    hexadecimal and their number is odd; the panic is the write at index
    [h] of the array of [h] codes. *)
Theorem decode_panics_only_on_odd_groups (fp : string) (p : runtime_error) :
  decode fp = Panic p ->
  (forall i, (i < String.length fp / 5)%nat -> hex_string (group fp i) = true) /\
  (String.length fp / 5 = 2 * (String.length fp / 5 / 2) + 1)%nat /\
  p = IndexOutOfRange (String.length fp / 5 / 2) (String.length fp / 5 / 2).
Proof.
  intros Hdec.
  destruct (hex_groups_dec fp (String.length fp / 5) 0)
    as [Hall|(j & Hj & Hbad)].
  - assert (Hall' : forall i, (i < String.length fp / 5)%nat ->
                      hex_string (group fp i) = true)
      by (intros i Hi; apply Hall; lia).
    destruct (half_cases (String.length fp / 5)) as [Heven|Hodd].
    + destruct (decode_even fp Hall' Heven) as (codes & times & Hok & _).
      congruence.
    + rewrite (decode_odd fp Hall' Hodd) in Hdec. injection Hdec as <-. auto.
  - destruct (decode_invalid_group fp j ltac:(lia) Hbad) as (i & c & _ & Herr).
    congruence.
Qed.

Lemma decode_panics_only_on_odd_groups_witness :
  decode "000010000200003" = Panic (IndexOutOfRange 1 1) /\
  (String.length "000010000200003" / 5 = 2 * 1 + 1)%nat.
Proof.
  split; [reflexivity|].
  destruct (decode_panics_only_on_odd_groups "000010000200003"
              (IndexOutOfRange 1 1) eq_refl) as (_ & Hodd & _).
  exact Hodd.
Defined.

(** ** decode: the round trip *)

Lemma digit_val_hex_digit (d : Z) :
  0 <= d < 16 -> digit_val (hex_digit d) = Some d.
Proof.
  intros Hd.
  assert (d = 0 \/ d = 1 \/ d = 2 \/ d = 3 \/ d = 4 \/ d = 5 \/ d = 6 \/ d = 7 \/
          d = 8 \/ d = 9 \/ d = 10 \/ d = 11 \/ d = 12 \/ d = 13 \/ d = 14 \/
          d = 15) as Hcases by lia.
  repeat (destruct Hcases as [->|Hcases]; [reflexivity|]).
  subst. reflexivity.
Qed.

Lemma parse_digits_hex_digit (d n : Z) (s : string) :
  0 <= d < 16 -> n * 16 + d < uint32_mod ->
  parse_digits (String (hex_digit d) s) n = parse_digits s (n * 16 + d).
Proof.
  intros Hd Hn. cbn [parse_digits]. rewrite digit_val_hex_digit by exact Hd.
  destruct (16 <=? d) eqn:H16; [apply Z.leb_le in H16; lia|].
  destruct (uint32_mod <=? n * 16 + d) eqn:Hr; [apply Z.leb_le in Hr; lia|].
  reflexivity.
Qed.

Lemma ParseUint_hex5 (v : Z) :
  0 <= v < 2 ^ 20 -> ParseUint (hex5 v) = Ok v.
Proof.
  change (2 ^ 20) with 1048576. intros Hv.
  unfold ParseUint, hex5. unfold uint32_mod.
  assert (Hm : forall x, 0 <= x mod 16 < 16) by (intros; apply Z.mod_pos_bound; lia).
  assert (H4 : 0 <= v / 65536 < 16)
    by (split; [apply Z.div_pos; lia|apply Z.div_lt_upper_bound; lia]).
  rewrite (Z.mod_small (v / 65536)) by exact H4.
  rewrite !parse_digits_hex_digit;
    unfold uint32_mod; change (2 ^ 32) with 4294967296;
    try apply Hm; try exact H4;
    try (pose proof (Hm (v / 4096)); pose proof (Hm (v / 256));
         pose proof (Hm (v / 16)); pose proof (Hm v); lia).
  cbn [parse_digits]. f_equal.
  pose proof (Z.div_mod v 16 ltac:(lia)).
  pose proof (Z.div_mod (v / 16) 16 ltac:(lia)).
  pose proof (Z.div_mod (v / 256) 16 ltac:(lia)).
  pose proof (Z.div_mod (v / 4096) 16 ltac:(lia)).
  assert (v / 16 / 16 = v / 256) by (rewrite Z.div_div by lia; reflexivity).
  assert (v / 256 / 16 = v / 4096) by (rewrite Z.div_div by lia; reflexivity).
  assert (v / 4096 / 16 = v / 65536) by (rewrite Z.div_div by lia; reflexivity).
  lia.
Qed.

Lemma hex5_length (v : Z) : String.length (hex5 v) = 5%nat.
Proof. reflexivity. Qed.

Lemma hex5_hex (v : Z) : hex_string (hex5 v) = true.
Proof.
  assert (Hd : forall x, is_hex (hex_digit (x mod 16)) = true).
  { intros x. unfold is_hex.
    pose proof (Z.mod_pos_bound x 16 ltac:(lia)) as Hr.
    rewrite digit_val_hex_digit by exact Hr. apply Z.ltb_lt. lia. }
  unfold hex5. cbn [hex_string]. rewrite !Hd. reflexivity.
Qed.

Lemma hex5_all_length (l : list Z) :
  String.length (hex5_all l) = (5 * length l)%nat.
Proof.
  induction l as [|v l IH]; [reflexivity|].
  cbn [hex5_all]. rewrite string_length_app, hex5_length, IH. simpl. lia.
Qed.

Lemma substring_0_0 (s : string) : substring 0 0 s = EmptyString.
Proof. destruct s; reflexivity. Qed.

(** The group [i] of the digits of a list is the digits of its element [i]. *)
Lemma group_hex5_all (rest : string) :
  forall l i v, l !! i = Some v ->
    group (hex5_all l ++ rest) i = hex5 v.
Proof.
  unfold group. induction l as [|x l IH]; intros i v Hi; [discriminate|].
  destruct i as [|i].
  - injection Hi as ->. cbn [hex5_all]. unfold hex5. simpl.
    rewrite substring_0_0. reflexivity.
  - cbn [hex5_all]. unfold hex5 at 1. simpl. apply IH. exact Hi.
Qed.

Lemma group_after_hex5_all (rest : string) :
  forall l i, group (hex5_all l ++ rest) (length l + i) = group rest i.
Proof.
  unfold group. induction l as [|x l IH]; intros i; [reflexivity|].
  cbn [hex5_all]. unfold hex5 at 1. simpl. apply IH.
Qed.

Lemma string_app_nil_r (s : string) : (s ++ "")%string = s.
Proof.
  induction s as [|c s IH]; [reflexivity|].
  change (String c (s ++ "")%string = String c s). f_equal. exact IH.
Qed.

(** X5. Round trip. For as many codes as times, all of twenty bits, the
    string of five hexadecimal digits per number, times first and codes
    after, decodes to these very codes and times, in two arrays without
    spare capacity. *)
Theorem decode_encode (codes times : list Z) :
  length codes = length times ->
  Forall (fun v => 0 <= v < 2 ^ 20) codes ->
  Forall (fun v => 0 <= v < 2 ^ 20) times ->
  decode (encode codes times) = Ok (Slice codes [], Slice times []).
Proof.
  intros Hlen Hcodes Htimes.
  set (n := length times).
  assert (Hgroups : (String.length (encode codes times) / 5 = 2 * n)%nat).
  { unfold encode. rewrite string_length_app, !hex5_all_length, Hlen. fold n.
    replace (5 * n + 5 * n)%nat with ((2 * n) * 5)%nat by lia.
    apply Nat.div_mul. lia. }
  assert (Hhalf : (String.length (encode codes times) / 5 / 2 = n)%nat).
  { rewrite Hgroups. rewrite Nat.mul_comm. apply Nat.div_mul. lia. }
  assert (Htime : forall i t, times !! i = Some t ->
            group (encode codes times) i = hex5 t).
  { intros i t Hi. apply group_hex5_all. exact Hi. }
  assert (Hcode : forall i c, codes !! i = Some c ->
            group (encode codes times) (n + i) = hex5 c).
  { intros i c Hi. unfold encode, n. rewrite group_after_hex5_all.
    rewrite <- (string_app_nil_r (hex5_all codes)).
    apply group_hex5_all. exact Hi. }
  destruct (decode_even (encode codes times)) as (cs & ts & Hdec & _).
  { intros i Hi. rewrite Hgroups in Hi.
    destruct (decide (i < n)%nat) as [Hlt|Hge].
    - destruct (lookup_lt_is_Some_2 times i Hlt) as [t Ht].
      rewrite (Htime i t Ht). apply hex5_hex.
    - destruct (lookup_lt_is_Some_2 codes (i - n)) as [c Hc]; [lia|].
      replace i with (n + (i - n))%nat by lia.
      rewrite (Hcode _ c Hc). apply hex5_hex. }
  { rewrite Hhalf. exact Hgroups. }
  rewrite Hdec. f_equal.
  destruct (decode_ok_inv _ _ _ Hdec) as (_ & Hlc & Hlt & Hsc & Hst & Hvals).
  rewrite Hhalf in Hlc, Hlt, Hvals.
  assert (Hts : elems ts = times).
  { apply list_eq_same_length with n; [reflexivity|exact Hlt|].
    intros i x y Hi Hx Hy.
    destruct (Hvals i Hi) as (t & c & Ht & _ & Ht' & _).
    rewrite (Htime i y Hy), ParseUint_hex5 in Ht.
    - congruence.
    - rewrite Forall_lookup in Htimes. exact (Htimes i y Hy). }
  assert (Hcs : elems cs = codes).
  { apply list_eq_same_length with n; [lia|exact Hlc|].
    intros i x y Hi Hx Hy.
    destruct (Hvals i Hi) as (t & c & _ & Hc & _ & Hc' & _).
    rewrite (Hcode i y Hy), ParseUint_hex5 in Hc.
    - congruence.
    - rewrite Forall_lookup in Hcodes. exact (Hcodes i y Hy). }
  destruct cs, ts; simpl in *; subst; reflexivity.
Qed.

Lemma decode_encode_witness :
  encode [1048575; 10] [5; 7763] = "0000501e53fffff0000a"%string /\
  decode (encode [1048575; 10] [5; 7763])
    = Ok (Slice [1048575; 10] [], Slice [5; 7763] []).
Proof.
  split; [reflexivity|].
  apply decode_encode; [reflexivity| |];
    repeat constructor; vm_compute; congruence.
Defined.

(** ** inflate and NewFingerprint *)

Lemma url_safe_fix_idempotent (data : string) :
  let fixed := strings_Replace (strings_Replace data "-" "+") "_" "/" in
  strings_Replace (strings_Replace fixed "-" "+") "_" "/" = fixed.
Proof.
  cbv zeta. induction data as [|c data IH]; [reflexivity|].
  cbn [strings_Replace]. rewrite IH. f_equal.
  destruct (Ascii.eqb_spec c "-") as [->|Hd]; [reflexivity|].
  destruct (Ascii.eqb_spec c "_") as [->|Hu]; [reflexivity|].
  rewrite (proj2 (Ascii.eqb_neq c "-") Hd), (proj2 (Ascii.eqb_neq c "_") Hu).
  reflexivity.
Qed.

(** X6. inflate takes the URL-safe alphabet and the standard one alike: a
    payload and the payload with every [-] turned into [+] and every [_]
    into [/] inflate to the same, be it a string or an error. *)
Theorem inflate_url_safe (E : Externals) (data : string) :
  inflate E (strings_Replace (strings_Replace data "-" "+") "_" "/")
  = inflate E data.
Proof.
  unfold inflate. cbv zeta. rewrite url_safe_fix_idempotent. reflexivity.
Qed.

(** X7. A fingerprint that NewFingerprint returns is not marked clamped,
    carries the metadata of the request, has as many codes as times, all of
    twenty bits; so the boundary of its window never leaves 32 bits, and
    when it has a first time NewClamped returns on it, with that first time
    kept. *)
Theorem NewFingerprint_clamps (E : Externals) (codegenFp : CodegenFp)
    (fp : Fingerprint) :
  NewFingerprint E codegenFp = Ok fp ->
  clamped fp = false /\ Meta fp = codegen_Meta codegenFp /\
  len (Codes fp) = len (Times fp) /\
  forall t0, elems (Times fp) !! 0%nat = Some t0 ->
    uint32_add (fpSixtySecOffset * 3) t0 = t0 + 7758 /\
    exists c, NewClamped fp = Ok c /\ elems (Times c) !! 0%nat = Some t0.
Proof.
  unfold NewFingerprint.
  destruct (inflate E (Code codegenFp)) as [inflated| |]; try discriminate.
  rewrite bind_Ok.
  destruct (decode inflated) as [[codes times]| |] eqn:Hdec; try discriminate.
  rewrite bind_Ok. intros [= <-]. simpl.
  destruct (decode_ok_inv _ _ _ Hdec) as (_ & Hlc & Hlt & _ & _ & Hvals).
  split; [reflexivity|]. split; [reflexivity|]. split; [congruence|].
  intros t0 H0.
  assert (Ht0 : 0 <= t0 < 2 ^ 20).
  { pose proof (lookup_lt_Some _ _ _ H0) as Hi. fold (len times) in Hi.
    rewrite Hlt in Hi.
    destruct (Hvals 0%nat Hi) as (t & c & _ & _ & Ht & _ & Hr & _).
    assert (t0 = t) as -> by congruence. exact Hr. }
  change (2 ^ 20) with 1048576 in Ht0.
  split.
  - unfold uint32_add, uint32, uint32_mod, fpSixtySecOffset.
    change (2 ^ 32) with 4294967296. rewrite Z.mod_small; lia.
  - apply NewClamped_keeps_first; simpl; try assumption;
      [congruence|lia|unfold uint32_mod; change (2 ^ 32) with 4294967296; lia].
Qed.

Lemma NewFingerprint_clamps_witness :
  exists c, NewClamped (fingerprint_of [10; 11] [5; 7]) = Ok c /\
            elems (Times c) !! 0%nat = Some 5.
Proof.
  destruct (NewFingerprint_clamps example_externals
              (codegen_of "00005000070000a0000b")
              (fingerprint_of [10; 11] [5; 7]) eq_refl)
    as (_ & _ & _ & Hclamp).
  exact (proj2 (Hclamp 5 eq_refl)).
Defined.

(** ** NewClamped: what the window keeps *)

Lemma filter_all_within (B : Z) (l : list Z) :
  Forall (fun t => t <= B) l -> filter (fun t => t <= B) l = l.
Proof.
  induction 1 as [|x l Hx _ IH]; [reflexivity|].
  rewrite filter_cons_True by exact Hx. rewrite IH. reflexivity.
Qed.

Lemma filter_none_within (B : Z) (l : list Z) :
  Forall (fun t => B < t) l -> filter (fun t => t <= B) l = [].
Proof.
  induction 1 as [|x l Hx _ IH]; [reflexivity|].
  rewrite filter_cons_False by lia. exact IH.
Qed.

Lemma sorted_after_cut (pre rest : list Z) (t : Z) :
  Sorted Z.le (pre ++ t :: rest) -> Forall (fun u => t <= u) rest.
Proof.
  intros Hs. apply (Sorted_StronglySorted _) in Hs.
  induction pre as [|x pre IH]; simpl in Hs.
  - inversion Hs; subst. assumption.
  - inversion Hs; subst. apply IH. assumption.
Qed.

(** X8. No time of a clamped fingerprint is above the boundary of the
    window: whenever NewClamped returns, every time it keeps is at most
    [3 * fpSixtySecOffset] after the first one (in [uint32]),
    and the times it keeps are a prefix of the times it was given. *)
Theorem NewClamped_times_within (fp c : Fingerprint) :
  NewClamped fp = Ok c ->
  exists t0, elems (Times fp) !! 0%nat = Some t0 /\
    Forall (fun t => t <= uint32_add (fpSixtySecOffset * 3) t0) (elems (Times c)) /\
    elems (Times c) `prefix_of` elems (Times fp) /\
    (len (Codes c) = len (Times c) \/ Codes c = Codes fp).
Proof.
  intros Hrun. destruct (NewClamped_ok_first _ _ Hrun) as [t0 H0].
  exists t0. split; [exact H0|].
  pose proof (NewClamped_cases fp t0 H0) as Hcases. cbv zeta in Hcases.
  destruct Hcases as [[Hall Hrun']|(pre & t & rest & Hsplit & Hpre & Ht & Hrun')];
    rewrite Hrun' in Hrun.
  - injection Hrun as <-. simpl. split; [exact Hall|]. split; [reflexivity|].
    right. reflexivity.
  - destruct (slice_to (Codes fp) (length pre)) as [codes'| |] eqn:Hcodes;
      try discriminate.
    rewrite bind_Ok in Hrun. injection Hrun as <-. simpl.
    split; [exact Hpre|]. split; [rewrite Hsplit; apply prefix_app_r; reflexivity|].
    left. apply slice_to_len in Hcodes. exact Hcodes.
Qed.

Lemma NewClamped_times_within_witness :
  exists t0, [5; 7763; 7764] !! 0%nat = Some t0 /\
    Forall (fun t => t <= uint32_add (fpSixtySecOffset * 3) t0) [5; 7763].
Proof.
  destruct (NewClamped_times_within (fingerprint_of [10; 20; 30] [5; 7763; 7764])
    {| Codes := Slice [10; 20] [30]; Times := Slice [5; 7763] [7764];
       Meta := no_metadata; clamped := true |} eq_refl)
    as (t0 & H0 & Hall & _).
  exists t0. split; [exact H0|exact Hall].
Defined.

(** X9. On times in ascending order the cut of NewClamped is a filter: the
    times it keeps are exactly the times of the fingerprint that are not
    above the boundary, and the codes it keeps are the codes in front of
    them. *)
Theorem NewClamped_sorted_is_filter (fp c : Fingerprint) (t0 : Z) :
  NewClamped fp = Ok c ->
  elems (Times fp) !! 0%nat = Some t0 ->
  Sorted Z.le (elems (Times fp)) ->
  len (Codes fp) = len (Times fp) ->
  let B := uint32_add (fpSixtySecOffset * 3) t0 in
  elems (Times c) = filter (fun t => t <= B) (elems (Times fp)) /\
  elems (Codes c) = take (length (elems (Times c))) (elems (Codes fp)).
Proof.
  intros Hrun H0 Hsorted Hlen. cbv zeta.
  pose proof (NewClamped_cases fp t0 H0) as Hcases. cbv zeta in Hcases.
  destruct Hcases as [[Hall Hrun']|(pre & t & rest & Hsplit & Hpre & Ht & Hrun')];
    rewrite Hrun' in Hrun.
  - injection Hrun as <-. simpl. rewrite filter_all_within by exact Hall.
    split; [reflexivity|]. fold (len (Times fp)). rewrite <- Hlen.
    unfold len. rewrite take_ge by lia. reflexivity.
  - rewrite slice_to_within, bind_Ok in Hrun.
    2:{ rewrite Hlen. unfold len. rewrite Hsplit, length_app. lia. }
    injection Hrun as <-. simpl. split; [|reflexivity].
    rewrite Hsplit in Hsorted |- *.
    pose proof (sorted_after_cut _ _ _ Hsorted) as Hrest.
    rewrite filter_app, (filter_all_within _ _ Hpre).
    rewrite filter_none_within; [rewrite app_nil_r; reflexivity|].
    constructor; [exact Ht|].
    eapply Forall_impl; [exact Hrest|]. simpl. intros u Hu. lia.
Qed.

Lemma NewClamped_sorted_is_filter_witness :
  [5; 7763] = filter (fun t => t <= uint32_add (fpSixtySecOffset * 3) 5)
                     [5; 7763; 7764; 9000] /\
  [10; 20] = take (length [5; 7763]) [10; 20; 30; 40].
Proof.
  apply (NewClamped_sorted_is_filter
           (fingerprint_of [10; 20; 30; 40] [5; 7763; 7764; 9000])
           {| Codes := Slice [10; 20] [30; 40]; Times := Slice [5; 7763] [7764; 9000];
              Meta := no_metadata; clamped := true |} 5).
  - reflexivity.
  - reflexivity.
  - repeat constructor; lia.
  - reflexivity.
Defined.

(** X10. NewClamped copies nothing: the slices it returns are views of the
    arrays of the fingerprint it was given, with the elements it cut off
    still there between length and capacity, and the same capacity. *)
Theorem NewClamped_shares_arrays (fp c : Fingerprint) :
  NewClamped fp = Ok c ->
  elems (Times c) ++ spare (Times c) = elems (Times fp) ++ spare (Times fp) /\
  elems (Codes c) ++ spare (Codes c) = elems (Codes fp) ++ spare (Codes fp) /\
  cap (Times c) = cap (Times fp) /\ cap (Codes c) = cap (Codes fp).
Proof.
  intros Hrun.
  enough (Hview :
    elems (Times c) ++ spare (Times c) = elems (Times fp) ++ spare (Times fp) /\
    elems (Codes c) ++ spare (Codes c) = elems (Codes fp) ++ spare (Codes fp)).
  { destruct Hview as [Ht Hc]. split; [exact Ht|]. split; [exact Hc|].
    unfold cap. rewrite <- !length_app, Ht, Hc. split; reflexivity. }
  destruct (NewClamped_ok_first _ _ Hrun) as [t0 H0].
  pose proof (NewClamped_cases fp t0 H0) as Hcases. cbv zeta in Hcases.
  destruct Hcases as [[Hall Hrun']|(pre & t & rest & Hsplit & Hpre & Ht & Hrun')];
    rewrite Hrun' in Hrun.
  - injection Hrun as <-. split; reflexivity.
  - unfold slice_to in Hrun.
    destruct (decide (length pre <= cap (Codes fp))%nat); [|discriminate].
    rewrite bind_Ok in Hrun. injection Hrun as <-. simpl.
    rewrite Hsplit, take_drop, <- app_assoc. split; reflexivity.
Qed.

Lemma NewClamped_shares_arrays_witness :
  [5; 7763] ++ [7764] = [5; 7763; 7764] ++ [] /\
  [10; 20] ++ [30] = [10; 20; 30] ++ [].
Proof.
  destruct (NewClamped_shares_arrays (fingerprint_of [10; 20; 30] [5; 7763; 7764])
    {| Codes := Slice [10; 20] [30]; Times := Slice [5; 7763] [7764];
       Meta := no_metadata; clamped := true |} eq_refl) as (Ht & Hc & _).
  split; [exact Ht|exact Hc].
Defined.

(** ** Quality *)

(** X11. What isMediumQuality accepts is never of medium quality: a
    bitrate above mediumQualityThreshold is of high quality for Quality. *)
Theorem isMediumQuality_is_high (fp : Fingerprint) :
  isMediumQuality fp = true -> Quality fp = qualityHigh.
Proof.
  unfold isMediumQuality, Quality, F64.gt, F64.ge, F64.eqb, SFltb, SFleb.
  intros Hgt.
  destruct (SFeqb _ _); [reflexivity|].
  destruct (SFcompare _ _) as [[| |]|]; try discriminate. reflexivity.
Qed.

Lemma isMediumQuality_is_high_witness :
  Quality (fingerprint_at_bitrate 320) = qualityHigh.
Proof. apply isMediumQuality_is_high. reflexivity. Defined.

Lemma holds_from_spec (test : Z -> bool) :
  forall n b, holds_from test n b = true ->
    forall x, b <= x < b + Z.of_nat n -> test x = true.
Proof.
  induction n as [|n IH]; intros b Hrun x Hx; [lia|].
  cbn [holds_from] in Hrun. apply andb_true_iff in Hrun as [Hb Hrest].
  destruct (Z.eq_dec x b) as [->|Hne]; [exact Hb|].
  apply (IH (b + 1) Hrest). lia.
Qed.

Lemma Quality_checked_range :
  holds_from (fun b => String.eqb (Quality (fingerprint_at_bitrate b))
                                  (quality_of_bitrate b))
             (Z.to_nat 131071) (-65535) = true.
Proof. vm_compute. reflexivity. Qed.

(** X12. For an integer bitrate, up to 65535 either way, Quality is: high
    at 0 (unknown) and from 256 on, medium from 128 to 255, low below 128
    and for every negative bitrate. *)
Theorem Quality_of_integer_bitrate (b : Z) :
  -65535 <= b <= 65535 ->
  Quality (fingerprint_at_bitrate b) = quality_of_bitrate b.
Proof.
  intros Hb. apply String.eqb_eq.
  apply (holds_from_spec _ _ _ Quality_checked_range b).
  rewrite Z2Nat.id by lia. lia.
Qed.

Lemma Quality_of_integer_bitrate_witness :
  Quality (fingerprint_at_bitrate 255) = qualityMedium /\
  Quality (fingerprint_at_bitrate 256) = qualityHigh /\
  Quality (fingerprint_at_bitrate 127) = qualityLow /\
  Quality (fingerprint_at_bitrate (-1)) = qualityLow.
Proof.
  rewrite !Quality_of_integer_bitrate by lia. repeat split.
Defined.

(** ** The match scorer: loops that return *)

(** A loop whose body keeps an invariant and returns while the invariant
    holds returns, with the invariant at the end of its range. *)
Lemma for_range_returns {S : Type} (P : nat -> S -> Prop)
    (body : nat -> S -> outcome S) :
  forall n lo s,
    P lo s ->
    (forall i s, (lo <= i < lo + n)%nat -> P i s ->
       exists s', body i s = Ok s' /\ P (Datatypes.S i) s') ->
    exists s', for_range lo n body s = Ok s' /\ P (lo + n)%nat s'.
Proof.
  induction n as [|n IH]; intros lo s HP Hbody.
  - exists s. rewrite Nat.add_0_r. auto.
  - rewrite for_range_S.
    destruct (Hbody lo s ltac:(lia) HP) as (s1 & -> & HP1). rewrite bind_Ok.
    destruct (IH (Datatypes.S lo) s1 HP1) as (s' & Hrun & HP').
    { intros i s2 Hi. apply Hbody. lia. }
    exists s'. split; [exact Hrun|].
    replace (lo + Datatypes.S n)%nat with (Datatypes.S lo + n)%nat by lia.
    exact HP'.
Qed.

Lemma for_each_returns {A S : Type} (f : A -> S -> S) :
  forall (l : list A) (s : S),
    for_each l (fun x s => Ok (f x s)) s = Ok (foldl (fun s x => f x s) s l).
Proof.
  induction l as [|x l IH]; intros s; [reflexivity|].
  cbn [for_each foldl]. rewrite bind_Ok. apply IH.
Qed.

Lemma discretize_ok (t slop : Z) :
  slop <> 0 -> discretize t slop = Ok (uint32 (t / slop * slop)).
Proof.
  intros Hslop. unfold discretize, uint32_div.
  destruct (slop =? 0) eqn:H0; [apply Z.eqb_eq in H0; contradiction|].
  reflexivity.
Qed.

Lemma index_ok (s : slice) (i : nat) :
  (i < len s)%nat -> exists x, elems s !! i = Some x /\ index s i = Ok x.
Proof.
  intros Hi. destruct (lookup_lt_is_Some_2 (elems s) i Hi) as [x Hx].
  exists x. split; [exact Hx|]. unfold index. rewrite Hx. reflexivity.
Qed.

(** [index] reads the same in two slices that agree on their first [n]
    elements, at every index below [n], also when it panics. *)
Lemma index_take (s s' : slice) (n i : nat) :
  take n (elems s) = take n (elems s') -> (i < n)%nat ->
  index s i = index s' i.
Proof.
  intros Htake Hi. unfold index, len.
  rewrite <- (lookup_take_lt (elems s) n i Hi).
  rewrite <- (lookup_take_lt (elems s') n i Hi), Htake.
  destruct (take n (elems s') !! i) as [x|] eqn:Hx; [reflexivity|].
  rewrite <- Htake in Hx.
  assert (Hs : (length (elems s) <= i)%nat).
  { apply lookup_ge_None in Hx. rewrite length_take in Hx. lia. }
  assert (Hs' : (length (elems s') <= i)%nat).
  { rewrite Htake in Hx. apply lookup_ge_None in Hx.
    rewrite length_take in Hx. lia. }
  rewrite !take_ge in Htake by lia. rewrite Htake. reflexivity.
Qed.

(** X13. calculateConfidence looks at the first pairs of the candidate
    only, as many as the query has codes: two candidates that agree on
    these give the same confidence, the same error and the same panic. *)
Theorem calculateConfidence_candidate_prefix
    (fp matchFp matchFp' : Fingerprint) (slop : Z) :
  take (len (Codes fp)) (elems (Codes matchFp))
    = take (len (Codes fp)) (elems (Codes matchFp')) ->
  take (len (Codes fp)) (elems (Times matchFp))
    = take (len (Codes fp)) (elems (Times matchFp')) ->
  calculateConfidence fp matchFp slop = calculateConfidence fp matchFp' slop.
Proof.
  intros Hcodes Htimes.
  enough (Hmap : getCodeTimeMap matchFp (len (Codes fp)) slop
                 = getCodeTimeMap matchFp' (len (Codes fp)) slop).
  { unfold calculateConfidence, timeDiffs_of. rewrite Hmap. reflexivity. }
  set (n := len (Codes fp)) in *.
  assert (Hlimit : forall m : Fingerprint,
            (if decide (len (Codes m) < n)%nat then len (Codes m) else n)
            = length (take n (elems (Codes m)))).
  { intros m. rewrite length_take. unfold len.
    destruct (decide (length (elems (Codes m)) < n)%nat); lia. }
  unfold getCodeTimeMap. rewrite !Hlimit, Hcodes.
  apply for_range_ext. intros i codeMap Hi.
  rewrite length_take in Hi.
  rewrite (index_take (Codes matchFp) (Codes matchFp') n i Hcodes) by lia.
  rewrite (index_take (Times matchFp) (Times matchFp') n i Htimes) by lia.
  reflexivity.
Qed.

Lemma calculateConfidence_candidate_prefix_witness :
  calculateConfidence (fingerprint_of [1; 2] [0; 4])
                      (fingerprint_of [1; 2; 9; 9] [0; 4; 6; 8]) 2
  = calculateConfidence (fingerprint_of [1; 2] [0; 4])
                        (fingerprint_of [1; 2] [0; 4]) 2.
Proof. apply calculateConfidence_candidate_prefix; reflexivity. Defined.

Lemma getCodeTimeMap_limit (matchFp : Fingerprint) (limit : nat) :
  let limit' := if decide (len (Codes matchFp) < limit)%nat
                then len (Codes matchFp) else limit in
  (limit' <= len (Codes matchFp))%nat /\ (limit' <= limit)%nat.
Proof. cbv zeta. destruct (decide _); lia. Qed.

(** The index of the candidate: it is built whenever the candidate has a
    time for each of its codes and slop is not 0. *)
Lemma getCodeTimeMap_returns (matchFp : Fingerprint) (limit : nat) (slop : Z) :
  slop <> 0 -> (len (Codes matchFp) <= len (Times matchFp))%nat ->
  exists codeMap, getCodeTimeMap matchFp limit slop = Ok codeMap.
Proof.
  intros Hslop Hlen. unfold getCodeTimeMap.
  pose proof (getCodeTimeMap_limit matchFp limit) as [Hl _]. cbv zeta in Hl.
  destruct (for_range_returns (fun _ _ => True)
    (fun i (codeMap : gmap Z (list Z)) =>
       code ← index (Codes matchFp) i;
       t ← index (Times matchFp) i;
       time ← discretize t slop;
       Ok (<[code := default [] (codeMap !! code) ++ [time]]> codeMap))
    (if decide (len (Codes matchFp) < limit)%nat then len (Codes matchFp) else limit)
    0%nat ∅ I) as (codeMap & Hrun & _).
  - intros i m Hi _.
    destruct (index_ok (Codes matchFp) i) as (c & _ & ->); [lia|].
    destruct (index_ok (Times matchFp) i) as (t & _ & ->); [lia|].
    rewrite !bind_Ok, discretize_ok, bind_Ok by exact Hslop. eauto.
  - exists codeMap. exact Hrun.
Qed.

(** X14. calculateConfidence returns a confidence, without panic and
    without error, whenever slop is not 0 and each of the two fingerprints
    has a time for each of its codes. *)
Theorem calculateConfidence_returns (fp matchFp : Fingerprint) (slop : Z) :
  slop <> 0 ->
  (len (Codes fp) <= len (Times fp))%nat ->
  (len (Codes matchFp) <= len (Times matchFp))%nat ->
  exists confidence, calculateConfidence fp matchFp slop = Ok confidence.
Proof.
  intros Hslop Hfp Hm. unfold calculateConfidence, timeDiffs_of.
  destruct (getCodeTimeMap_returns matchFp (len (Codes fp)) slop Hslop Hm)
    as (codeMap & ->).
  rewrite bind_Ok.
  destruct (for_range_returns (fun _ _ => True)
    (fun i (timeDiffs : gmap Z Z) =>
       code ← index (Codes fp) i;
       t ← index (Times fp) i;
       fpTime ← discretize t slop;
       match codeMap !! code with
       | Some matchTimes =>
         for_each matchTimes (fun matchTime timeDiffs =>
           Ok (incr_bucket (distance intSize fpTime matchTime) timeDiffs)) timeDiffs
       | None => Ok timeDiffs
       end)
    (len (Codes fp)) 0%nat ∅ I) as (timeDiffs & -> & _).
  - intros i m Hi _.
    destruct (index_ok (Codes fp) i) as (c & _ & ->); [lia|].
    destruct (index_ok (Times fp) i) as (t & _ & ->); [lia|].
    rewrite !bind_Ok, discretize_ok, bind_Ok by exact Hslop.
    destruct (codeMap !! c) as [matchTimes|]; [|eauto].
    rewrite (for_each_returns
      (fun matchTime timeDiffs =>
         incr_bucket (distance intSize (uint32 (t / slop * slop)) matchTime)
                     timeDiffs)).
    eauto.
  - rewrite bind_Ok. eauto.
Qed.

Lemma calculateConfidence_returns_witness :
  exists confidence,
    calculateConfidence (fingerprint_of [1; 3; 2] [0; 2; 4])
                        (fingerprint_of [1; 3; 2] [2; 2; 2]) 2 = Ok confidence.
Proof.
  apply calculateConfidence_returns; [discriminate|vm_compute; lia..].
Defined.

(** X15. With slop 0 calculateConfidence panics on a division by zero, for
    every query that has a code and a time and every candidate that has a
    time for each of its codes. *)
Theorem calculateConfidence_slop_0 (fp matchFp : Fingerprint) :
  (0 < len (Codes fp))%nat -> (0 < len (Times fp))%nat ->
  (len (Codes matchFp) <= len (Times matchFp))%nat ->
  calculateConfidence fp matchFp 0 = Panic IntegerDivideByZero.
Proof.
  intros Hc Ht Hm. unfold calculateConfidence, timeDiffs_of, getCodeTimeMap.
  destruct (index_ok (Codes fp) 0 Hc) as (c & _ & Hic).
  destruct (index_ok (Times fp) 0 Ht) as (t & _ & Hit).
  destruct (len (Codes fp)) as [|n] eqn:Hn; [lia|].
  destruct (decide (len (Codes matchFp) < S n)%nat) as [Hlt|Hge].
  - destruct (len (Codes matchFp)) as [|k] eqn:Hk.
    + change (for_range 0 0 ?f ?s) with (Ok s).
      rewrite bind_Ok, for_range_S, Hic, Hit. reflexivity.
    + destruct (index_ok (Codes matchFp) 0) as (c' & _ & Hic'); [lia|].
      destruct (index_ok (Times matchFp) 0) as (t' & _ & Hit'); [lia|].
      rewrite for_range_S, Hic', Hit'. reflexivity.
  - destruct (index_ok (Codes matchFp) 0) as (c' & _ & Hic'); [lia|].
    destruct (index_ok (Times matchFp) 0) as (t' & _ & Hit'); [lia|].
    rewrite for_range_S, Hic', Hit'. reflexivity.
Qed.

Lemma calculateConfidence_slop_0_witness :
  calculateConfidence (fingerprint_of [1] [0]) (fingerprint_of [] []) 0
  = Panic IntegerDivideByZero.
Proof. apply calculateConfidence_slop_0; vm_compute; lia. Defined.

(** ** The match scorer: a fingerprint against itself, and against a
    fingerprint it shares no code with *)

Lemma float_beq_eq (x y : spec_float) : float_beq x y = true -> x = y.
Proof.
  destruct x as [s|s| |s m e], y as [s'|s'| |s' m' e']; simpl; try discriminate.
  - intros H. apply Bool.eqb_prop in H. congruence.
  - intros H. apply Bool.eqb_prop in H. congruence.
  - reflexivity.
  - intros H. apply andb_true_iff in H as [H He].
    apply andb_true_iff in H as [Hs Hm].
    apply Bool.eqb_prop in Hs. apply Pos.eqb_eq in Hm. apply Z.eqb_eq in He.
    congruence.
Qed.

(** The index of a candidate whose codes are all different: each of the
    codes it covers leads to the one discretized time of its pair. *)
Lemma getCodeTimeMap_distinct (matchFp : Fingerprint) (slop : Z) :
  slop <> 0 -> NoDup (elems (Codes matchFp)) ->
  (len (Codes matchFp) <= len (Times matchFp))%nat ->
  exists codeMap,
    getCodeTimeMap matchFp (len (Codes matchFp)) slop = Ok codeMap /\
    forall i c t, elems (Codes matchFp) !! i = Some c ->
      elems (Times matchFp) !! i = Some t ->
      codeMap !! c = Some [uint32 (t / slop * slop)].
Proof.
  intros Hslop Hnodup Hlen. unfold getCodeTimeMap.
  destruct (decide (len (Codes matchFp) < len (Codes matchFp))%nat); [lia|].
  destruct (for_range_returns
    (fun k (codeMap : gmap Z (list Z)) =>
       (forall i c t, (i < k)%nat -> elems (Codes matchFp) !! i = Some c ->
          elems (Times matchFp) !! i = Some t ->
          codeMap !! c = Some [uint32 (t / slop * slop)]) /\
       (forall i c, (k <= i)%nat -> elems (Codes matchFp) !! i = Some c ->
          codeMap !! c = None))
    (fun i (codeMap : gmap Z (list Z)) =>
       code ← index (Codes matchFp) i;
       t ← index (Times matchFp) i;
       time ← discretize t slop;
       Ok (<[code := default [] (codeMap !! code) ++ [time]]> codeMap))
    (len (Codes matchFp)) 0%nat ∅) as (codeMap & Hrun & Hinv & _).
  - split; [intros; lia|]. intros. apply lookup_empty.
  - intros k m Hk [Hdone Htodo].
    destruct (index_ok (Codes matchFp) k) as (c & Hc & ->); [lia|].
    destruct (index_ok (Times matchFp) k) as (t & Ht & ->); [lia|].
    rewrite !bind_Ok, discretize_ok, bind_Ok by exact Hslop.
    eexists. split; [reflexivity|].
    rewrite (Htodo k c) by (try lia; exact Hc). simpl.
    split.
    + intros i c' t' Hi Hc' Ht'.
      destruct (decide (i = k)) as [->|Hne].
      * assert (c' = c) as -> by congruence. assert (t' = t) as -> by congruence.
        apply lookup_insert_eq.
      * rewrite lookup_insert_ne.
        -- apply (Hdone i); [lia|assumption..].
        -- intros ->. apply Hne. symmetry. exact (NoDup_lookup _ _ _ _ Hnodup Hc Hc').
    + intros i c' Hi Hc'. rewrite lookup_insert_ne.
      * apply (Htodo i); [lia|exact Hc'].
      * intros ->. pose proof (NoDup_lookup _ _ _ _ Hnodup Hc Hc'). lia.
  - exists codeMap. split; [exact Hrun|].
    intros i c t Hc Ht. apply (Hinv i); [|assumption..].
    apply lookup_lt_Some in Hc. exact Hc.
Qed.

Lemma distance_same (x : Z) : distance intSize x x = 0.
Proof.
  unfold intSize. rewrite distance_64. unfold uint32_sub.
  rewrite Z.sub_diag. reflexivity.
Qed.

Lemma incr_bucket_0 (k : nat) :
  Z.of_nat k < 65535 ->
  incr_bucket 0 (match k with
                 | O => ∅
                 | S _ => {[ 0 := Z.of_nat k ]}
                 end)
  = {[ 0 := Z.of_nat (S k) ]}.
Proof.
  intros Hk. unfold incr_bucket. destruct k as [|k].
  - rewrite lookup_empty. reflexivity.
  - rewrite lookup_singleton_eq, insert_singleton_eq. simpl default.
    f_equal. unfold uint16_incr. change (2 ^ 16) with 65536.
    rewrite Z.mod_small by lia. lia.
Qed.

Lemma self_confidence_checked :
  holds_from (fun n =>
      float_beq (F32.mul (F32.div (F32.of_Z n) (F32.of_Z n)) (F32.of_Z 100))
                (F32.of_Z 100))
    (Z.to_nat 65535) 1 = true.
Proof. vm_compute. reflexivity. Qed.

(** X16. Self-match. A fingerprint of 1 to 65535 codes, all different, with
    a time for each code, scored against itself with a slop that is not 0:
    every pair falls into the bucket 0 and the confidence is 100. *)
Theorem calculateConfidence_self (fp : Fingerprint) (slop : Z) :
  slop <> 0 -> NoDup (elems (Codes fp)) ->
  (len (Codes fp) <= len (Times fp))%nat ->
  1 <= Z.of_nat (len (Codes fp)) <= 65535 ->
  timeDiffs_of fp fp slop = Ok {[ 0 := Z.of_nat (len (Codes fp)) ]} /\
  calculateConfidence fp fp slop = Ok (F32.of_Z 100).
Proof.
  intros Hslop Hnodup Hlen Hn.
  assert (Hhist : timeDiffs_of fp fp slop = Ok {[ 0 := Z.of_nat (len (Codes fp)) ]}).
  { unfold timeDiffs_of.
    destruct (getCodeTimeMap_distinct fp slop Hslop Hnodup Hlen)
      as (codeMap & -> & Hmap).
    rewrite bind_Ok.
    destruct (for_range_returns
      (fun k (timeDiffs : gmap Z Z) =>
         timeDiffs = match k with
                     | O => ∅
                     | S _ => {[ 0 := Z.of_nat k ]}
                     end)
      (fun i (timeDiffs : gmap Z Z) =>
         code ← index (Codes fp) i;
         t ← index (Times fp) i;
         fpTime ← discretize t slop;
         match codeMap !! code with
         | Some matchTimes =>
           for_each matchTimes (fun matchTime timeDiffs =>
             Ok (incr_bucket (distance intSize fpTime matchTime) timeDiffs)) timeDiffs
         | None => Ok timeDiffs
         end)
      (len (Codes fp)) 0%nat ∅ eq_refl) as (timeDiffs & -> & ->).
    - intros k m Hk ->.
      destruct (index_ok (Codes fp) k) as (c & Hc & ->); [lia|].
      destruct (index_ok (Times fp) k) as (t & Ht & ->); [lia|].
      rewrite !bind_Ok, discretize_ok, bind_Ok by exact Hslop.
      rewrite (Hmap k c t Hc Ht). cbn [for_each]. rewrite bind_Ok.
      rewrite distance_same, incr_bucket_0 by lia. eauto.
    - simpl. destruct (len (Codes fp)); [lia|reflexivity]. }
  split; [exact Hhist|].
  unfold calculateConfidence. rewrite Hhist, bind_Ok.
  unfold timeDiffVals_of. rewrite map_to_list_singleton.
  change (score_of (merge_sort Z.ge (snd <$> [(0, Z.of_nat (len (Codes fp)))])))
    with (Z.of_nat (len (Codes fp))).
  f_equal. apply float_beq_eq.
  apply (holds_from_spec _ _ _ self_confidence_checked).
  rewrite Z2Nat.id by lia. lia.
Qed.

Lemma calculateConfidence_self_witness :
  calculateConfidence (fingerprint_of [10; 11; 12] [5; 7; 40])
                      (fingerprint_of [10; 11; 12] [5; 7; 40]) 2
  = Ok (F32.of_Z 100).
Proof.
  apply calculateConfidence_self.
  - discriminate.
  - apply NoDup_ListNoDup. repeat constructor; simpl; intuition lia.
  - vm_compute. lia.
  - unfold len. simpl. lia.
Defined.

(** The index of a candidate has no entry for a code the candidate does
    not have. *)
Lemma getCodeTimeMap_domain (matchFp : Fingerprint) (limit : nat) (slop : Z) :
  slop <> 0 -> (len (Codes matchFp) <= len (Times matchFp))%nat ->
  exists codeMap,
    getCodeTimeMap matchFp limit slop = Ok codeMap /\
    forall c, c ∉ elems (Codes matchFp) -> codeMap !! c = None.
Proof.
  intros Hslop Hlen. unfold getCodeTimeMap.
  pose proof (getCodeTimeMap_limit matchFp limit) as [Hl _]. cbv zeta in Hl.
  destruct (for_range_returns
    (fun _ (codeMap : gmap Z (list Z)) =>
       forall c, c ∉ elems (Codes matchFp) -> codeMap !! c = None)
    (fun i (codeMap : gmap Z (list Z)) =>
       code ← index (Codes matchFp) i;
       t ← index (Times matchFp) i;
       time ← discretize t slop;
       Ok (<[code := default [] (codeMap !! code) ++ [time]]> codeMap))
    (if decide (len (Codes matchFp) < limit)%nat then len (Codes matchFp) else limit)
    0%nat ∅) as (codeMap & Hrun & Hinv).
  - intros c _. apply lookup_empty.
  - intros k m Hk Hm.
    destruct (index_ok (Codes matchFp) k) as (c & Hc & ->); [lia|].
    destruct (index_ok (Times matchFp) k) as (t & Ht & ->); [lia|].
    rewrite !bind_Ok, discretize_ok, bind_Ok by exact Hslop.
    eexists. split; [reflexivity|].
    intros c' Hc'. rewrite lookup_insert_ne; [apply Hm, Hc'|].
    intros ->. apply Hc'. eapply list_elem_of_lookup_2. exact Hc.
  - exists codeMap. split; [exact Hrun|exact Hinv].
Qed.

Lemma confidence_of_score_0 (y : spec_float) :
  F32.ge (F32.mul (F32.div (F32.of_Z 0) y) (F32.of_Z 100))
         minMatchConfidenceLowQuality = false.
Proof. destruct y as [[|]|[|]| |[|] m e]; reflexivity. Qed.

(** X17. No code in common. When no code of the query is a code of the
    candidate (slop not 0, a time for each code on both sides), the
    histogram is empty and the confidence is below the lowest minimum
    confidence: such a candidate is never a match. *)
Theorem calculateConfidence_no_common_code (fp matchFp : Fingerprint) (slop : Z) :
  slop <> 0 ->
  (len (Codes fp) <= len (Times fp))%nat ->
  (len (Codes matchFp) <= len (Times matchFp))%nat ->
  (forall c, c ∈ elems (Codes fp) -> c ∉ elems (Codes matchFp)) ->
  timeDiffs_of fp matchFp slop = Ok ∅ /\
  exists confidence,
    calculateConfidence fp matchFp slop = Ok confidence /\
    F32.ge confidence minMatchConfidenceLowQuality = false.
Proof.
  intros Hslop Hfp Hm Hdisjoint.
  assert (Hhist : timeDiffs_of fp matchFp slop = Ok ∅).
  { unfold timeDiffs_of.
    destruct (getCodeTimeMap_domain matchFp (len (Codes fp)) slop Hslop Hm)
      as (codeMap & -> & Hdom).
    rewrite bind_Ok.
    destruct (for_range_returns
      (fun _ (timeDiffs : gmap Z Z) => timeDiffs = ∅)
      (fun i (timeDiffs : gmap Z Z) =>
         code ← index (Codes fp) i;
         t ← index (Times fp) i;
         fpTime ← discretize t slop;
         match codeMap !! code with
         | Some matchTimes =>
           for_each matchTimes (fun matchTime timeDiffs =>
             Ok (incr_bucket (distance intSize fpTime matchTime) timeDiffs)) timeDiffs
         | None => Ok timeDiffs
         end)
      (len (Codes fp)) 0%nat ∅ eq_refl) as (timeDiffs & -> & ->); [|reflexivity].
    intros k m Hk ->.
    destruct (index_ok (Codes fp) k) as (c & Hc & ->); [lia|].
    destruct (index_ok (Times fp) k) as (t & Ht & ->); [lia|].
    rewrite !bind_Ok, discretize_ok, bind_Ok by exact Hslop.
    rewrite Hdom; [eauto|].
    apply Hdisjoint. eapply list_elem_of_lookup_2. exact Hc. }
  split; [exact Hhist|].
  unfold calculateConfidence. rewrite Hhist, bind_Ok.
  eexists. split; [reflexivity|].
  change (score_of (timeDiffVals_of ∅)) with 0.
  apply confidence_of_score_0.
Qed.

Lemma calculateConfidence_no_common_code_witness :
  exists confidence,
    calculateConfidence (fingerprint_of [1; 2] [0; 4])
                        (fingerprint_of [3; 4] [0; 4]) 2 = Ok confidence /\
    F32.ge confidence minMatchConfidenceLowQuality = false.
Proof.
  apply calculateConfidence_no_common_code.
  - discriminate.
  - vm_compute. lia.
  - vm_compute. lia.
  - intros c Hc Hc'. simpl in Hc, Hc'.
    rewrite !elem_of_cons in Hc, Hc'.
    destruct Hc as [->|[->|Hc]]; [| |inversion Hc];
      (destruct Hc' as [Hc'|[Hc'|Hc']]; [discriminate|discriminate|inversion Hc']).
Defined.

(** ** The match engine: what Match returns *)

(** X18. After clampMatchConfidence no confidence is above 100; the
    results are as many as before, in the same order, with the same flags
    and errors, and a confidence that was not above 100 is unchanged. *)
Theorem clampMatchConfidence_bounded (matches : list MatchResult) :
  Forall (fun m => F32.gt (Confidence m) maxConfidence = false)
         (clampMatchConfidence matches) /\
  length (clampMatchConfidence matches) = length matches /\
  Best <$> clampMatchConfidence matches = Best <$> matches /\
  Error <$> clampMatchConfidence matches = Error <$> matches /\
  (Forall (fun m => F32.gt (Confidence m) maxConfidence = false) matches ->
   clampMatchConfidence matches = matches).
Proof.
  unfold clampMatchConfidence.
  induction matches as [|m matches (IH1 & IH2 & IH3 & IH4 & IH5)].
  - repeat split; constructor.
  - rewrite !fmap_cons. cbn [length].
    destruct (F32.gt (Confidence m) maxConfidence) eqn:Hgt.
    + split; [constructor; [reflexivity|exact IH1]|].
      split; [f_equal; exact IH2|]. split; [simpl; f_equal; exact IH3|].
      split; [simpl; f_equal; exact IH4|].
      intros Hall. inversion Hall; congruence.
    + split; [constructor; [exact Hgt|exact IH1]|].
      split; [f_equal; exact IH2|]. split; [f_equal; exact IH3|].
      split; [f_equal; exact IH4|].
      intros Hall. inversion Hall; subst. f_equal. apply IH5. assumption.
Qed.

Lemma for_each_invariant {A S : Type} (P : S -> Prop)
    (body : A -> S -> outcome S) :
  (forall x s s', P s -> body x s = Ok s' -> P s') ->
  forall l s s', P s -> for_each l body s = Ok s' -> P s'.
Proof.
  intros Hbody. induction l as [|x l IH]; intros s s' HP Hrun.
  - injection Hrun as <-. exact HP.
  - cbn [for_each] in Hrun.
    destruct (body x s) as [s1| |] eqn:Hs1; try discriminate.
    rewrite bind_Ok in Hrun. eapply IH; [|exact Hrun]. eapply Hbody; eauto.
Qed.

Lemma for_each_length {A B : Type} (body : A -> list B -> outcome (list B)) :
  (forall x s s', body x s = Ok s' -> (length s' <= S (length s))%nat) ->
  forall l s s', for_each l body s = Ok s' ->
    (length s' <= length s + length l)%nat.
Proof.
  intros Hbody. induction l as [|x l IH]; intros s s' Hrun.
  - injection Hrun as <-. simpl. lia.
  - cbn [for_each] in Hrun.
    destruct (body x s) as [s1| |] eqn:Hs1; try discriminate.
    rewrite bind_Ok in Hrun. apply IH in Hrun. apply Hbody in Hs1.
    cbn [length]. lia.
Qed.

(** The steps of a call of Match that returns. *)
Lemma Match_ok_inv (E : Externals) (fp : Fingerprint) (ms : list MatchResult) :
  Match E fp = Ok ms ->
  exists c rows kept,
    clamped_for_match fp c /\ Quality c = Quality fp /\
    db_query E c 0 (fst (match_policy (Quality c))) minDBScorePercent = Ok rows /\
    (length kept <= length rows)%nat /\
    Forall (fun m => Best m = false /\ Error m = None /\
                     F32.ge (Confidence m) (snd (match_policy (Quality c))) = true)
           kept /\
    ((kept = [] /\ ms = []) \/
     (kept <> [] /\ exists flagged,
        determineBestMatch (sort_Sort E MatchResult byConfidence_Less kept)
          = Ok flagged /\
        ms = clampMatchConfidence flagged)).
Proof.
  unfold Match. intros Hrun.
  assert (Hcm : forall c, (if clamped fp then Ok fp else NewClamped fp) = Ok c ->
            clamped_for_match fp c).
  { intros c Hc. destruct (clamped fp) eqn:Hflag.
    - left. split; [exact Hflag|congruence].
    - right. split; [exact Hflag|exact Hc]. }
  destruct (if clamped fp then Ok fp else NewClamped fp) as [c| |] eqn:Hc;
    try discriminate.
  rewrite bind_Ok in Hrun. specialize (Hcm c eq_refl).
  assert (Hq : Quality c = Quality fp).
  { destruct Hcm as [[_ ->]|[_ Hcl]]; [reflexivity|].
    destruct (NewClamped_flag _ _ Hcl) as [_ Hmeta].
    unfold Quality. rewrite Hmeta. reflexivity. }
  destruct (match_policy (Quality c)) as [numRows minMatchConfidence] eqn:Hpol.
  destruct (db_query E c 0 numRows minDBScorePercent) as [rows| |] eqn:Hrows;
    try discriminate.
  rewrite bind_Ok in Hrun.
  match type of Hrun with
  | (for_each rows ?body [] ≫= _) = _ => set (keep := body) in *
  end.
  destruct (for_each rows keep []) as [kept| |] eqn:Hkept; try discriminate.
  rewrite bind_Ok in Hrun.
  exists c, rows, kept. rewrite Hpol. simpl fst. simpl snd.
  split; [exact Hcm|]. split; [exact Hq|]. split; [exact Hrows|].
  assert (Hstep : forall r s s', keep r s = Ok s' ->
            s' = s \/ exists confidence,
              F32.ge confidence minMatchConfidence = true /\
              s' = s ++ [newMatchResult r confidence]).
  { intros r s s' Hr. unfold keep in Hr.
    destruct (calculateConfidence c (result_fp r) (uint32 histogramMatchSlop))
      as [confidence| |]; try discriminate.
    rewrite bind_Ok in Hr.
    destruct (F32.ge confidence minMatchConfidence) eqn:Hge;
      injection Hr as <-; [right; eauto|left; reflexivity]. }
  split.
  { apply (for_each_length keep) in Hkept; [simpl in Hkept; lia|].
    intros r s s' Hr. destruct (Hstep _ _ _ Hr) as [->|(cf & _ & ->)].
    - lia.
    - rewrite length_app. simpl. lia. }
  split.
  { apply (for_each_invariant
             (Forall (fun m => Best m = false /\ Error m = None /\
                               F32.ge (Confidence m) minMatchConfidence = true))
             keep) with (l := rows) (s := []); [|constructor|exact Hkept].
    intros r s s' Hs Hr. destruct (Hstep _ _ _ Hr) as [->|(cf & Hge & ->)].
    - exact Hs.
    - apply Forall_app. split; [exact Hs|]. constructor; [|constructor].
      simpl. auto. }
  destruct (decide (0 < length kept)%nat) as [Hpos|Hzero].
  - right. split; [intros ->; simpl in Hpos; lia|].
    destruct (determineBestMatch _) as [flagged| |]; try discriminate.
    rewrite bind_Ok in Hrun. injection Hrun as <-. eauto.
  - left. injection Hrun as <-. destruct kept; [auto|simpl in Hzero; lia].
Qed.

Lemma determineBestMatch_inv (matches out : list MatchResult) :
  determineBestMatch matches = Ok out ->
  exists m0 rest, matches = m0 :: rest /\
    (out = set_Best m0 :: rest \/ (out = m0 :: rest /\ rest <> [])) /\
    (rest = [] -> out = [set_Best m0]).
Proof.
  destruct matches as [|m0 [|m1 rest]]; simpl.
  - discriminate.
  - intros [= <-]. exists m0, []. split; [reflexivity|]. split; [left|]; reflexivity.
  - destruct (F32.ge _ _); intros [= <-]; exists m0, (m1 :: rest);
      (split; [reflexivity|]); (split; [|discriminate]).
    + left. reflexivity.
    + right. split; [reflexivity|discriminate].
Qed.

Lemma match_policy_cases (quality : string) :
  snd (match_policy quality) = minMatchConfidenceHighQuality \/
  snd (match_policy quality) = minMatchConfidenceMediumQuality \/
  snd (match_policy quality) = minMatchConfidenceLowQuality.
Proof.
  unfold match_policy.
  destruct (String.eqb quality qualityHigh); [auto|].
  destruct (String.eqb quality qualityMedium); auto.
Qed.

Lemma exists_sort_permutation_example :
  forall l, sort_Sort example_externals MatchResult byConfidence_Less l ≡ₚ l.
Proof. intros l. apply merge_sort_Permutation. Qed.

(** X19. Whatever Match returns, given that [sort.Sort] rearranges and
    does nothing else: no result carries an error, every confidence is at
    least the minimum confidence of the quality of the fingerprint, and
    none is above 100. *)
Theorem Match_confidence_range (E : Externals) (fp : Fingerprint)
    (ms : list MatchResult) :
  (forall l, sort_Sort E MatchResult byConfidence_Less l ≡ₚ l) ->
  Match E fp = Ok ms ->
  Forall (fun m => Error m = None /\
            F32.ge (Confidence m) (snd (match_policy (Quality fp))) = true /\
            F32.gt (Confidence m) maxConfidence = false) ms.
Proof.
  intros Hsort Hrun.
  destruct (Match_ok_inv _ _ _ Hrun)
    as (c & rows & kept & _ & Hq & _ & _ & Hkept & [[_ ->]|(_ & flagged & Hbest & ->)]).
  - constructor.
  - rewrite Hq in Hkept.
    set (thr := snd (match_policy (Quality fp))) in *.
    assert (Hthr : F32.ge maxConfidence thr = true).
    { destruct (match_policy_cases (Quality fp)) as [H|[H|H]];
        unfold thr; rewrite H; reflexivity. }
    assert (Hflagged : Forall (fun m => Error m = None /\
                          F32.ge (Confidence m) thr = true) flagged).
    { rewrite <- (Hsort kept) in Hkept.
      destruct (determineBestMatch_inv _ _ Hbest)
        as (m0 & rest & Hs & [->|[-> _]] & _); rewrite Hs in Hkept.
      - inversion Hkept as [|? ? (_ & He & Hge) Hrest]; subst.
        constructor; [simpl; auto|].
        eapply Forall_impl; [exact Hrest|]. simpl. tauto.
      - eapply Forall_impl; [exact Hkept|]. simpl. tauto. }
    unfold clampMatchConfidence. apply Forall_fmap.
    eapply Forall_impl; [exact Hflagged|].
    intros m [He Hge]. simpl.
    destruct (F32.gt (Confidence m) maxConfidence) eqn:Hgt; simpl; auto.
Qed.

Lemma Match_confidence_range_witness :
  exists ms, Match example_externals (fingerprint_of [10; 11] [5; 7]) = Ok ms /\
    Forall (fun m => Error m = None /\
              F32.ge (Confidence m) minMatchConfidenceHighQuality = true /\
              F32.gt (Confidence m) maxConfidence = false) ms.
Proof.
  eexists. split; [vm_compute; reflexivity|].
  refine (Match_confidence_range example_externals (fingerprint_of [10; 11] [5; 7])
            _ exists_sort_permutation_example _).
  vm_compute. reflexivity.
Defined.

(** X20. Whatever Match returns, given that [sort.Sort] rearranges and
    does nothing else: no result after the first is flagged best, and a
    single result is flagged best. *)
Theorem Match_best_is_first (E : Externals) (fp : Fingerprint)
    (ms : list MatchResult) :
  (forall l, sort_Sort E MatchResult byConfidence_Less l ≡ₚ l) ->
  Match E fp = Ok ms ->
  Forall (fun m => Best m = false) (drop 1 ms) /\
  (forall m, ms = [m] -> Best m = true).
Proof.
  intros Hsort Hrun.
  destruct (Match_ok_inv _ _ _ Hrun)
    as (c & rows & kept & _ & _ & _ & _ & Hkept & [[_ ->]|(_ & flagged & Hbest & ->)]).
  - split; [constructor|discriminate].
  - destruct (clampMatchConfidence_bounded flagged) as (_ & Hlen & Hflags & _).
    rewrite <- (Hsort kept) in Hkept.
    destruct (determineBestMatch_inv _ _ Hbest) as (m0 & rest & Hs & Hout & Hone).
    rewrite Hs in Hkept. inversion Hkept as [|? ? _ Hrest]; subst.
    assert (Htail : Forall (fun m => Best m = false) rest)
      by (eapply Forall_impl; [exact Hrest|]; simpl; tauto).
    split.
    + apply Forall_fmap with (f := Best) (P := fun b => b = false).
      rewrite fmap_drop, Hflags, <- fmap_drop.
      apply Forall_fmap.
      destruct Hout as [->|[-> _]]; simpl; rewrite drop_0; exact Htail.
    + intros m Hm.
      assert (rest = []) as ->.
      { apply (f_equal length) in Hm. rewrite Hlen in Hm.
        destruct Hout as [->|[-> _]]; simpl in Hm; destruct rest;
          [reflexivity|discriminate|reflexivity|discriminate]. }
      rewrite (Hone eq_refl) in Hm, Hflags.
      rewrite Hm in Hflags. simpl in Hflags. congruence.
Qed.

Lemma Match_best_is_first_witness :
  exists m, Match example_externals (fingerprint_of [10; 11] [5; 7]) = Ok [m] /\
            Best m = true.
Proof.
  eexists. split; [vm_compute; reflexivity|].
  refine (proj2 (Match_best_is_first example_externals
                   (fingerprint_of [10; 11] [5; 7]) _
                   exists_sort_permutation_example _) _ eq_refl).
  vm_compute. reflexivity.
Defined.

(** X21. Match asks the store once, for the clamped fingerprint, from
    offset 0, as many rows as the quality allows and the score floor 30;
    whatever it returns has at most as many results as the store gave rows,
    so none when the store gives none. *)
Theorem Match_at_most_rows (E : Externals) (fp : Fingerprint)
    (ms : list MatchResult) :
  (forall l, sort_Sort E MatchResult byConfidence_Less l ≡ₚ l) ->
  Match E fp = Ok ms ->
  exists c rows,
    clamped_for_match fp c /\
    db_query E c 0 (fst (match_policy (Quality fp))) 30 = Ok rows /\
    (length ms <= length rows)%nat /\
    (rows = [] -> ms = []).
Proof.
  intros Hsort Hrun.
  destruct (Match_ok_inv _ _ _ Hrun)
    as (c & rows & kept & Hcm & Hq & Hrows & Hlen & _ & Hms).
  exists c, rows. rewrite Hq in Hrows.
  split; [exact Hcm|]. split; [exact Hrows|].
  assert (Hle : (length ms <= length rows)%nat).
  { destruct Hms as [[_ ->]|(_ & flagged & Hbest & ->)]; [simpl; lia|].
    destruct (clampMatchConfidence_bounded flagged) as (_ & -> & _).
    pose proof (Permutation_length (Hsort kept)) as Hperm.
    destruct (determineBestMatch_inv _ _ Hbest) as (m0 & rest & Hs & Hout & _).
    rewrite Hs in Hperm.
    destruct Hout as [->|[-> _]]; simpl in *; lia. }
  split; [exact Hle|].
  intros ->. destruct ms; [reflexivity|simpl in Hle; lia].
Qed.

Lemma Match_at_most_rows_witness :
  exists ms, Match example_externals (fingerprint_of [10; 11] [5; 7]) = Ok ms /\
             (length ms <= 1)%nat.
Proof.
  eexists. split; [vm_compute; reflexivity|].
  destruct (Match_at_most_rows example_externals (fingerprint_of [10; 11] [5; 7]) _
              exists_sort_permutation_example ltac:(vm_compute; reflexivity))
    as (c & rows & _ & Hrows & Hle & _).
  vm_compute in Hrows. injection Hrows as <-. exact Hle.
Defined.

Lemma Match_clamps_once_witness :
  Match example_externals (fingerprint_of [10; 20; 30] [5; 7763; 7764])
  = Match example_externals
      {| Codes := Slice [10; 20] [30]; Times := Slice [5; 7763] [7764];
         Meta := no_metadata; clamped := true |}.
Proof. apply Match_clamps_once; reflexivity. Defined.

(** ** The batch orchestrator, one query after the other *)

(** No schedule of the goroutines ends in an error value. *)
Lemma run_goroutines_no_err (E : Externals) (l : list CodegenFp) (e : error) :
  forall order slots, run_goroutines E l order slots <> Err e.
Proof.
  unfold run_goroutines.
  induction order as [|g order IH]; intros slots; [discriminate|].
  cbn [for_each]. destruct (l !! g) as [q'|].
  - destruct (matchGroup E q') as [r|e'|] eqn:Hq'.
    + rewrite !bind_Ok. apply IH.
    + exfalso. exact (matchGroup_no_err _ _ _ Hq').
    + discriminate.
  - rewrite bind_Ok. apply IH.
Qed.

(** Either every goroutine of a batch returns, or one of them panics. *)
Lemma goroutines_return_or_panic (E : Externals) (l : list CodegenFp) :
  (exists rs, Forall2 (fun q r => matchGroup E q = Ok r) l rs) \/
  (exists i q p, l !! i = Some q /\ matchGroup E q = Panic p).
Proof.
  induction l as [|q l IH].
  - left. exists []. constructor.
  - destruct (matchGroup E q) as [r|e|p] eqn:Hq.
    + destruct IH as [[rs Hrs]|(i & q' & p & Hi & Hp)].
      * left. exists (r :: rs). constructor; assumption.
      * right. exists (S i), q', p. split; assumption.
    + exfalso. exact (matchGroup_no_err _ _ _ Hq).
    + right. exists 0%nat, q, p. split; [reflexivity|exact Hq].
Qed.

(** A schedule that runs every goroutine returns exactly when every
    goroutine returns, and then the slots are their values. *)
Lemma run_goroutines_returns (E : Externals) (l : list CodegenFp)
    (order : list nat) (slots : list (list MatchResult)) :
  order ≡ₚ seq 0 (length l) ->
  run_goroutines E l order (replicate (length l) []) = Ok slots <->
  Forall2 (fun q r => matchGroup E q = Ok r) l slots.
Proof.
  intros Hperm. split.
  - intros Hrun.
    destruct (goroutines_return_or_panic E l) as [[rs Hrs]|(i & q & p & Hi & Hp)].
    + rewrite (schedule_independent E l rs order Hrs Hperm) in Hrun.
      injection Hrun as <-. exact Hrs.
    + destruct (run_goroutines_panic E l i q p Hi Hp order (replicate (length l) []))
        as [p' Hp'].
      * rewrite Hperm. apply elem_of_seq. apply lookup_lt_Some in Hi. lia.
      * rewrite Hp' in Hrun. discriminate.
  - intros Hrs. apply schedule_independent; assumption.
Qed.

(** X23. Under every schedule of the goroutines, a batch [q :: l] returns
    exactly when the goroutine of [q] returns and the batch [l] returns
    (under any schedule of its own), and then its slots are the value of
    the goroutine of [q] followed by the slots of [l]; it ends in a panic
    exactly when the goroutine of [q] or the batch [l] does; and it never
    returns an error value. MatchAll is the schedule in the order of the
    input. *)
Theorem run_goroutines_cons (E : Externals) (q : CodegenFp) (l : list CodegenFp)
    (order order' : list nat) :
  order ≡ₚ seq 0 (S (length l)) -> order' ≡ₚ seq 0 (length l) ->
  let batch := run_goroutines E (q :: l) order (replicate (S (length l)) []) in
  let rest := run_goroutines E l order' (replicate (length l) []) in
  (forall slots, batch = Ok slots <->
     exists r rs, matchGroup E q = Ok r /\ rest = Ok rs /\ slots = r :: rs) /\
  ((exists p, batch = Panic p) <->
     (exists p, matchGroup E q = Panic p) \/ (exists p, rest = Panic p)) /\
  (forall e, batch <> Err e) /\
  (forall slots, MatchAll E (q :: l) = Ok slots <-> batch = Ok slots) /\
  MatchAll E [] = Ok [].
Proof.
  intros Hperm Hperm' batch rest.
  assert (Hok : forall slots, batch = Ok slots <->
     exists r rs, matchGroup E q = Ok r /\ rest = Ok rs /\ slots = r :: rs).
  { intros slots. subst batch rest.
    rewrite (run_goroutines_returns E (q :: l) order slots Hperm). split.
    - intros Hall. inversion Hall as [|? r ? rs Hq Hrs]; subst.
      exists r, rs. split; [exact Hq|]. split; [|reflexivity].
      apply run_goroutines_returns; assumption.
    - intros (r & rs & Hq & Hrs & ->). constructor; [exact Hq|].
      apply (run_goroutines_returns E l order' rs Hperm'). exact Hrs. }
  split; [exact Hok|]. split; [|split; [|split]].
  - split.
    + intros [p Hp].
      destruct (matchGroup E q) as [r|e|pq] eqn:Hq.
      * right. destruct rest as [rs|e|pr] eqn:Hrest.
        -- assert (Hb : batch = Ok (r :: rs)).
           { apply Hok. exists r, rs. split; [reflexivity|]. split; reflexivity. }
           rewrite Hb in Hp. discriminate.
        -- exfalso. exact (run_goroutines_no_err _ _ _ _ _ Hrest).
        -- exists pr. reflexivity.
      * exfalso. exact (matchGroup_no_err _ _ _ Hq).
      * left. exists pq. reflexivity.
    + destruct batch as [slots|e|p] eqn:Hb.
      * destruct (proj1 (Hok slots) eq_refl) as (r & rs & Hq & Hrs & _).
        intros [[p Hp]|[p Hp]]; [rewrite Hq in Hp|rewrite Hrs in Hp]; discriminate.
      * exfalso. exact (run_goroutines_no_err _ _ _ _ _ Hb).
      * intros _. exists p. reflexivity.
  - intros e. apply run_goroutines_no_err.
  - intros slots. unfold MatchAll. subst batch.
    rewrite (run_goroutines_returns E (q :: l) _ slots (reflexivity _)).
    rewrite (run_goroutines_returns E (q :: l) order slots Hperm). reflexivity.
  - reflexivity.
Qed.

Lemma run_goroutines_cons_witness :
  exists good,
    run_goroutines example_externals
      [codegen_of "0000g"; codegen_of "00005000070000a0000b"]
      [1; 0]%nat [[]; []]
    = Ok [newMatchGroupError (NumError "ParseUint" "0000g" ErrSyntax); good] /\
    run_goroutines example_externals [codegen_of "00005000070000a0000b"]
      [0]%nat [[]] = Ok [good].
Proof.
  pose proof (run_goroutines_cons example_externals (codegen_of "0000g")
                [codegen_of "00005000070000a0000b"] [1; 0]%nat [0]%nat
                (perm_swap 0%nat 1%nat []) (reflexivity _)) as Hcons.
  cbv zeta in Hcons. destruct Hcons as (Hok & _).
  eexists. split; [|reflexivity].
  apply Hok. eexists _, _. split; [reflexivity|]. split; reflexivity.
Defined.

(** ** The earlier NewClamped *)

(** The pairs the earlier NewClamped keeps: those whose time is below the
    boundary. *)
Lemma legacy_clamp_filter_inv (fp : Legacy.Fingerprint) (B : Z) :
  forall rest i acc c,
    drop i (Legacy.Times fp) = rest ->
    Legacy.clamp_filter fp B i rest acc = Ok c ->
    Legacy.Times c = Legacy.Times acc ++ filter (fun t => t < B) rest /\
    Legacy.Codes c = Legacy.Codes acc ++
      (fst <$> filter (fun p => snd p < B) (zip (drop i (Legacy.Codes fp)) rest)) /\
    Legacy.Version c = Legacy.Version acc /\
    Legacy.clamped c = Legacy.clamped acc.
Proof.
  induction rest as [|time rest IH]; intros i acc c Hdrop Hrun.
  - injection Hrun as <-. rewrite zip_with_nil_r. simpl. rewrite !app_nil_r. auto.
  - assert (Hi : Legacy.Times fp !! i = Some time).
    { rewrite <- (Nat.add_0_r i), <- lookup_drop, Hdrop. reflexivity. }
    assert (Hdrop' : drop (S i) (Legacy.Times fp) = rest).
    { rewrite (drop_S _ _ _ Hi) in Hdrop. congruence. }
    cbn [Legacy.clamp_filter] in Hrun.
    destruct (time <? B) eqn:Hlt.
    + apply Z.ltb_lt in Hlt.
      unfold Legacy.at_index in Hrun. rewrite Hi in Hrun.
      destruct (Legacy.Codes fp !! i) as [code|] eqn:Hcode; [|discriminate].
      rewrite !bind_Ok in Hrun.
      destruct (IH _ _ _ Hdrop' Hrun) as (Ht & Hc & Hv & Hcl). simpl in *.
      rewrite (drop_S _ _ _ Hcode). cbn [zip_with].
      rewrite !filter_cons_True by (simpl; lia). cbn [fmap list_fmap fst].
      rewrite Ht, Hc, <- !app_assoc. auto.
    + apply Z.ltb_ge in Hlt.
      destruct (IH _ _ _ Hdrop' Hrun) as (Ht & Hc & Hv & Hcl).
      rewrite filter_cons_False by lia.
      split; [exact Ht|]. split; [|auto].
      rewrite Hc. f_equal.
      destruct (Legacy.Codes fp !! i) as [code|] eqn:Hcode.
      * rewrite (drop_S _ _ _ Hcode). cbn [zip_with].
        rewrite filter_cons_False by (simpl; lia). reflexivity.
      * apply lookup_ge_None in Hcode.
        rewrite !drop_ge by lia. reflexivity.
Qed.

Lemma legacy_clamp_filter_lengths (fp : Legacy.Fingerprint) (B : Z) :
  forall rest i acc c,
    Legacy.clamp_filter fp B i rest acc = Ok c ->
    length (Legacy.Codes acc) = length (Legacy.Times acc) ->
    length (Legacy.Codes c) = length (Legacy.Times c).
Proof.
  induction rest as [|time rest IH]; intros i acc c Hrun Hacc.
  - injection Hrun as <-. exact Hacc.
  - cbn [Legacy.clamp_filter] in Hrun.
    destruct (time <? B).
    + destruct (Legacy.at_index (Legacy.Codes fp) i) as [code| |]; try discriminate.
      rewrite bind_Ok in Hrun.
      destruct (Legacy.at_index (Legacy.Times fp) i) as [t| |]; try discriminate.
      rewrite bind_Ok in Hrun.
      apply (IH _ _ _ Hrun). simpl. rewrite !length_app. simpl. lia.
    + apply (IH _ _ _ Hrun Hacc).
Qed.

(** X24. The earlier NewClamped is a filter over the whole fingerprint:
    whenever it returns, it has kept exactly the pairs whose time is below
    the first time plus fpSixtySecOffset (in [uint32]), in their order, as
    many codes as times, under the version of the fingerprint and the mark
    clamped. *)
Theorem legacy_NewClamped_is_filter (fp c : Legacy.Fingerprint) :
  Legacy.NewClamped fp = Ok c ->
  exists t0, Legacy.Times fp !! 0%nat = Some t0 /\
    let B := uint32_add Legacy.fpSixtySecOffset t0 in
    Legacy.Times c = filter (fun t => t < B) (Legacy.Times fp) /\
    Legacy.Codes c = fst <$> filter (fun p => snd p < B)
                               (zip (Legacy.Codes fp) (Legacy.Times fp)) /\
    length (Legacy.Codes c) = length (Legacy.Times c) /\
    Legacy.Version c = Legacy.Version fp /\ Legacy.clamped c = true.
Proof.
  unfold Legacy.NewClamped, Legacy.at_index. intros Hrun.
  destruct (Legacy.Times fp !! 0%nat) as [t0|] eqn:H0; [|discriminate].
  rewrite bind_Ok in Hrun. exists t0. split; [reflexivity|]. cbv zeta.
  destruct (legacy_clamp_filter_inv fp _ _ 0%nat _ c eq_refl Hrun)
    as (Ht & Hc & Hv & Hcl).
  pose proof (legacy_clamp_filter_lengths fp _ _ _ _ c Hrun eq_refl) as Hlen.
  simpl in Ht, Hc, Hv, Hcl.
  split; [exact Ht|]. split; [exact Hc|]. auto.
Qed.

Lemma legacy_NewClamped_is_filter_witness :
  exists c, Legacy.NewClamped
      {| Legacy.Version := S754_zero false; Legacy.Codes := [10; 20; 30; 40];
         Legacy.Times := [5; 2591; 9; 2590]; Legacy.clamped := false |} = Ok c /\
    Legacy.Times c = [5; 9; 2590] /\ Legacy.Codes c = [10; 30; 40].
Proof.
  eexists. split; [reflexivity|].
  destruct (legacy_NewClamped_is_filter
    {| Legacy.Version := S754_zero false; Legacy.Codes := [10; 20; 30; 40];
       Legacy.Times := [5; 2591; 9; 2590]; Legacy.clamped := false |}
    {| Legacy.Version := S754_zero false; Legacy.Codes := [10; 30; 40];
       Legacy.Times := [5; 9; 2590]; Legacy.clamped := true |} eq_refl)
    as (t0 & H0 & Ht & Hc & _).
  split; reflexivity.
Defined.

(** The earlier NewClamped returns whenever the fingerprint has a code
    for each of its times. *)
Lemma legacy_clamp_filter_returns (fp : Legacy.Fingerprint) (B : Z) :
  (length (Legacy.Times fp) <= length (Legacy.Codes fp))%nat ->
  forall rest i acc,
    drop i (Legacy.Times fp) = rest ->
    exists c, Legacy.clamp_filter fp B i rest acc = Ok c.
Proof.
  intros Hlen. induction rest as [|time rest IH]; intros i acc Hdrop.
  - eexists. reflexivity.
  - assert (Hi : Legacy.Times fp !! i = Some time).
    { rewrite <- (Nat.add_0_r i), <- lookup_drop, Hdrop. reflexivity. }
    assert (Hdrop' : drop (S i) (Legacy.Times fp) = rest).
    { rewrite (drop_S _ _ _ Hi) in Hdrop. congruence. }
    cbn [Legacy.clamp_filter]. destruct (time <? B); [|apply IH, Hdrop'].
    destruct (lookup_lt_is_Some_2 (Legacy.Codes fp) i) as [code Hcode].
    { apply lookup_lt_Some in Hi. lia. }
    unfold Legacy.at_index. rewrite Hcode, Hi, !bind_Ok. apply IH, Hdrop'.
Qed.

Lemma Forall_filter_lt (B : Z) (l : list Z) :
  Forall (fun t => t < B) (filter (fun t => t < B) l).
Proof.
  apply Forall_forall. intros x Hx. apply list_elem_of_filter in Hx. tauto.
Qed.

Lemma filter_all_lt (B : Z) (l : list Z) :
  Forall (fun t => t < B) l -> filter (fun t => t < B) l = l.
Proof.
  induction 1 as [|x l Hx _ IH]; [reflexivity|].
  rewrite filter_cons_True by exact Hx. rewrite IH. reflexivity.
Qed.

Lemma zip_filter_all_lt (B : Z) :
  forall (times codes : list Z),
    Forall (fun t => t < B) times -> length codes = length times ->
    fst <$> filter (fun p => snd p < B) (zip codes times) = codes.
Proof.
  induction times as [|t times IH]; intros codes Hall Hlen.
  - destruct codes; [reflexivity|discriminate].
  - destruct codes as [|code codes]; [discriminate|].
    inversion Hall; subst. cbn [zip_with].
    rewrite filter_cons_True by (simpl; assumption).
    cbn [fmap list_fmap fst]. f_equal. apply IH; [assumption|].
    simpl in Hlen. lia.
Qed.

(** X25. The earlier NewClamped is idempotent: unless the boundary leaves
    32 bits, clamping the fingerprint it has returned returns that very
    fingerprint. *)
Theorem legacy_NewClamped_idempotent (fp c : Legacy.Fingerprint) (t0 : Z) :
  Legacy.NewClamped fp = Ok c ->
  Legacy.Times fp !! 0%nat = Some t0 ->
  0 <= t0 -> t0 + 2586 < uint32_mod ->
  Legacy.NewClamped c = Ok c.
Proof.
  intros Hrun H0 Hge Hlt.
  assert (HB : uint32_add Legacy.fpSixtySecOffset t0 = t0 + 2586).
  { unfold uint32_add, uint32, Legacy.fpSixtySecOffset.
    rewrite Z.mod_small; lia. }
  assert (Hinv : forall x y, Legacy.NewClamped x = Ok y ->
    forall t, Legacy.Times x !! 0%nat = Some t ->
      Legacy.Times y = filter (fun u => u < uint32_add Legacy.fpSixtySecOffset t)
                              (Legacy.Times x) /\
      Legacy.Codes y = fst <$> filter
          (fun p => snd p < uint32_add Legacy.fpSixtySecOffset t)
          (zip (Legacy.Codes x) (Legacy.Times x)) /\
      length (Legacy.Codes y) = length (Legacy.Times y) /\
      Legacy.Version y = Legacy.Version x /\ Legacy.clamped y = true).
  { intros x y Hxy t Ht. unfold Legacy.NewClamped, Legacy.at_index in Hxy.
    rewrite Ht, bind_Ok in Hxy.
    destruct (legacy_clamp_filter_inv x _ _ 0%nat _ y eq_refl Hxy)
      as (H1 & H2 & H3 & H4).
    pose proof (legacy_clamp_filter_lengths x _ _ _ _ y Hxy eq_refl) as H5.
    simpl in H1, H2, H3, H4. auto. }
  destruct (Hinv _ _ Hrun t0 H0) as (Ht & Hc & Hlen & Hv & Hcl).
  rewrite HB in Ht, Hc.
  assert (Hc0 : Legacy.Times c !! 0%nat = Some t0).
  { rewrite Ht. destruct (Legacy.Times fp) as [|x l]; [discriminate|].
    injection H0 as ->. rewrite filter_cons_True by lia. reflexivity. }
  assert (Hall : Forall (fun t => t < t0 + 2586) (Legacy.Times c))
    by (rewrite Ht; apply Forall_filter_lt).
  destruct (legacy_clamp_filter_returns c (uint32_add Legacy.fpSixtySecOffset t0)
              ltac:(lia) (Legacy.Times c) 0%nat
              {| Legacy.Version := Legacy.Version c; Legacy.Codes := [];
                 Legacy.Times := []; Legacy.clamped := true |} eq_refl)
    as (c' & Hrun').
  assert (Hcc : Legacy.NewClamped c = Ok c').
  { unfold Legacy.NewClamped, Legacy.at_index. rewrite Hc0, bind_Ok. exact Hrun'. }
  rewrite Hcc. f_equal.
  destruct (Hinv _ _ Hcc t0 Hc0) as (Ht' & Hc' & _ & Hv' & Hcl').
  rewrite HB in Ht', Hc'.
  rewrite (filter_all_lt _ _ Hall) in Ht'.
  rewrite (zip_filter_all_lt _ _ _ Hall Hlen) in Hc'.
  destruct c, c'; simpl in *; congruence.
Qed.

Lemma legacy_NewClamped_idempotent_witness :
  Legacy.NewClamped
    {| Legacy.Version := S754_zero false; Legacy.Codes := [10; 30; 40];
       Legacy.Times := [5; 9; 2590]; Legacy.clamped := true |}
  = Ok {| Legacy.Version := S754_zero false; Legacy.Codes := [10; 30; 40];
          Legacy.Times := [5; 9; 2590]; Legacy.clamped := true |}.
Proof.
  apply (legacy_NewClamped_idempotent
    {| Legacy.Version := S754_zero false; Legacy.Codes := [10; 20; 30; 40];
       Legacy.Times := [5; 2591; 9; 2590]; Legacy.clamped := false |} _ 5).
  - reflexivity.
  - reflexivity.
  - lia.
  - reflexivity.
Defined.

(** ** The two windows on ascending times *)

Lemma sorted_head_le (x : Z) (l : list Z) :
  Sorted Z.le (x :: l) -> Sorted Z.le l /\ Forall (fun y => x <= y) l.
Proof.
  intros Hs. apply (Sorted_StronglySorted _) in Hs.
  inversion Hs as [|? ? Hl Hx]; subst.
  split; [apply StronglySorted_Sorted, Hl|exact Hx].
Qed.

(** A filter by an upper bound keeps a prefix of an ascending list, and
    the codes in front of the times it keeps. *)
Lemma sorted_filter_lt_take (B : Z) :
  forall (times codes : list Z),
    Sorted Z.le times -> length codes = length times ->
    filter (fun t => t < B) times
      = take (length (filter (fun t => t < B) times)) times /\
    fst <$> filter (fun p => snd p < B) (zip codes times)
      = take (length (filter (fun t => t < B) times)) codes.
Proof.
  induction times as [|t times IH]; intros codes Hs Hlen.
  - destruct codes; [split; reflexivity|discriminate].
  - destruct codes as [|code codes]; [discriminate|].
    destruct (sorted_head_le _ _ Hs) as [Hs' Hle].
    cbn [zip_with].
    destruct (decide (t < B)) as [Hlt|Hge].
    + rewrite !filter_cons_True by (simpl; assumption).
      cbn [length take fmap list_fmap fst].
      destruct (IH codes Hs') as [H1 H2]; [simpl in Hlen; lia|].
      split; f_equal; assumption.
    + rewrite !filter_cons_False by (simpl; assumption).
      assert (Hnone : Forall (fun u => ~ u < B) times)
        by (eapply Forall_impl; [exact Hle|]; simpl; intros; lia).
      assert (H1 : filter (fun u => u < B) times = []).
      { clear -Hnone. induction Hnone as [|u l Hu _ IHl]; [reflexivity|].
        rewrite filter_cons_False by exact Hu. exact IHl. }
      assert (H2 : filter (fun p : Z * Z => snd p < B) (zip codes times) = []).
      { clear -Hnone. revert codes.
        induction Hnone as [|u l Hu _ IHl]; intros codes.
        - destruct codes; reflexivity.
        - destruct codes as [|code codes]; [reflexivity|]. cbn [zip_with].
          rewrite filter_cons_False by (simpl; exact Hu). apply IHl. }
      rewrite H1, H2. split; reflexivity.
Qed.

Lemma filter_lt_shorter (B1 B2 : Z) (l : list Z) :
  B1 <= B2 + 1 ->
  (length (filter (fun t => (t < B1)%Z) l)
     <= length (filter (fun t => (t <= B2)%Z) l))%nat.
Proof.
  intros HB. induction l as [|x l IH]; [reflexivity|].
  destruct (decide (x < B1)) as [Hlt|Hge].
  - rewrite filter_cons_True by exact Hlt.
    rewrite (filter_cons_True (fun t => t <= B2)) by lia. simpl. lia.
  - rewrite filter_cons_False by exact Hge.
    destruct (decide (x <= B2)).
    + rewrite (filter_cons_True (fun t => t <= B2)) by assumption. simpl. lia.
    + rewrite (filter_cons_False (fun t => t <= B2)) by assumption. exact IH.
Qed.

(** What the current NewClamped keeps of ascending times, as a filter. *)
Lemma NewClamped_sorted_filter (fp c : Fingerprint) (t0 : Z) :
  NewClamped fp = Ok c ->
  elems (Times fp) !! 0%nat = Some t0 ->
  Sorted Z.le (elems (Times fp)) ->
  len (Codes fp) = len (Times fp) ->
  elems (Times c)
    = filter (fun t => t <= uint32_add (fpSixtySecOffset * 3) t0) (elems (Times fp)) /\
  elems (Times c) = take (length (elems (Times c))) (elems (Times fp)) /\
  elems (Codes c) = take (length (elems (Times c))) (elems (Codes fp)).
Proof.
  intros Hrun H0 Hsorted Hlen.
  pose proof (NewClamped_cases fp t0 H0) as Hcases. cbv zeta in Hcases.
  destruct Hcases as [[Hall Hrun']|(pre & t & rest & Hsplit & Hpre & Ht & Hrun')];
    rewrite Hrun' in Hrun.
  - injection Hrun as <-. simpl. rewrite filter_all_within by exact Hall.
    split; [reflexivity|]. split; [rewrite take_ge by lia; reflexivity|].
    fold (len (Times fp)). rewrite <- Hlen.
    unfold len. rewrite take_ge by lia. reflexivity.
  - rewrite slice_to_within, bind_Ok in Hrun.
    2:{ rewrite Hlen. unfold len. rewrite Hsplit, length_app. lia. }
    injection Hrun as <-. simpl.
    split; [|split; [rewrite Hsplit, take_app_length; reflexivity|reflexivity]].
    rewrite Hsplit in Hsorted |- *.
    pose proof (sorted_after_cut _ _ _ Hsorted) as Hrest.
    rewrite filter_app, (filter_all_within _ _ Hpre).
    rewrite filter_none_within; [rewrite app_nil_r; reflexivity|].
    constructor; [exact Ht|].
    eapply Forall_impl; [exact Hrest|]. simpl. intros u Hu. lia.
Qed.

(** X26. The two windows. On a fingerprint with ascending times, as many
    codes as times and a boundary within 32 bits, what the earlier
    NewClamped keeps (times below the first plus 2586) is a prefix of what
    the current NewClamped keeps (times up to the first plus 7758), codes
    and times alike. *)
Theorem legacy_window_within_current (fp c : Fingerprint)
    (lc : Legacy.Fingerprint) (t0 : Z) :
  elems (Times fp) !! 0%nat = Some t0 ->
  0 <= t0 -> t0 + 7758 < uint32_mod ->
  Sorted Z.le (elems (Times fp)) ->
  len (Codes fp) = len (Times fp) ->
  NewClamped fp = Ok c ->
  Legacy.NewClamped (legacy_of fp) = Ok lc ->
  Legacy.Times lc `prefix_of` elems (Times c) /\
  Legacy.Codes lc `prefix_of` elems (Codes c).
Proof.
  intros H0 Hge Hlt Hsorted Hlen Hrun Hlegacy.
  destruct (NewClamped_sorted_filter _ _ _ Hrun H0 Hsorted Hlen)
    as (Hfilter & Htimes & Hcodes).
  assert (HB2 : uint32_add (fpSixtySecOffset * 3) t0 = t0 + 7758).
  { unfold uint32_add, uint32, fpSixtySecOffset. rewrite Z.mod_small; lia. }
  assert (HB1 : uint32_add Legacy.fpSixtySecOffset t0 = t0 + 2586).
  { unfold uint32_add, uint32, Legacy.fpSixtySecOffset. rewrite Z.mod_small; lia. }
  unfold Legacy.NewClamped, Legacy.at_index in Hlegacy. simpl in Hlegacy.
  rewrite H0, bind_Ok, HB1 in Hlegacy.
  destruct (legacy_clamp_filter_inv (legacy_of fp) _ _ 0%nat _ lc eq_refl Hlegacy)
    as (Hlt' & Hlc' & _).
  simpl in Hlt', Hlc'. rewrite !drop_0 in Hlt', Hlc'.
  destruct (sorted_filter_lt_take (t0 + 2586) (elems (Times fp)) (elems (Codes fp))
              Hsorted Hlen) as [Hk1 Hk1c].
  set (k1 := length (filter (fun t => t < t0 + 2586) (elems (Times fp)))) in *.
  assert (Hlt'' : Legacy.Times lc = take k1 (elems (Times fp)))
    by (rewrite Hlt'; exact Hk1).
  assert (Hlc'' : Legacy.Codes lc = take k1 (elems (Codes fp)))
    by (rewrite Hlc'; exact Hk1c).
  assert (Hk : (k1 <= length (elems (Times c)))%nat).
  { rewrite Hfilter, HB2. apply filter_lt_shorter. lia. }
  rewrite Hlt'', Hlc'', Htimes, Hcodes.
  split.
  - rewrite <- (Nat.min_l _ _ Hk), <- take_take. apply prefix_take.
  - rewrite <- (Nat.min_l _ _ Hk), <- take_take. apply prefix_take.
Qed.

Lemma legacy_window_within_current_witness :
  [5; 9; 2590] `prefix_of` [5; 9; 2590; 2591; 7763] /\
  [10; 20; 30] `prefix_of` [10; 20; 30; 40; 50].
Proof.
  refine (legacy_window_within_current
    (fingerprint_of [10; 20; 30; 40; 50; 60] [5; 9; 2590; 2591; 7763; 7764])
    {| Codes := Slice [10; 20; 30; 40; 50] [60];
       Times := Slice [5; 9; 2590; 2591; 7763] [7764];
       Meta := no_metadata; clamped := true |}
    {| Legacy.Version := S754_zero false; Legacy.Codes := [10; 20; 30];
       Legacy.Times := [5; 9; 2590]; Legacy.clamped := true |}
    5 eq_refl _ _ _ eq_refl eq_refl eq_refl).
  - lia.
  - reflexivity.
  - repeat constructor; lia.
Defined.
